(** * Algo_AMM: the off-chain driver of the AMM contract

    A shallow embedding of [amm/create_amm.py]: the confirmation waiter
    [waitForTransaction], contract compilation, and the four lifecycle
    operations [createAmmApp], [setupAmmApp], [optInToPoolToken] and
    [supply].

    The Python code talks to a remote node through an [AlgodClient] handle
    and raises exceptions.  Both are explicit here: a computation is a
    function from the state of the world (the node behind the client plus
    the list of client calls made so far) to a result or a raised exception
    and the new state of the world. *)

From stdpp Require Import gmap strings list pretty.
From Stdlib Require Import Strings.Byte.
From Equations Require Import Equations.

Local Open Scope string_scope.
Local Open Scope list_scope.
Local Open Scope Z_scope.

(** ** Python values *)

(** The node's responses are decoded JSON: [None], integers, strings, lists
    and dictionaries with string keys. *)
#[warnings="-register-all"]
Inductive PyVal :=
| VNone
| VInt (z : Z)
| VStr (s : string)
| VList (l : list PyVal)
| VDict (d : gmap string PyVal).

Abbreviation dict := (gmap string PyVal).
Abbreviation bytes := (list byte).

#[global] Instance byte_eq_decision : EqDecision byte := Byte.byte_eq_dec.

(** The exceptions the driver can end with.  [Exception] is the plain
    [Exception(msg)] the driver raises itself; [Upstream] stands for whatever
    the node client or the SDK raises, which the driver never catches. *)
Inductive PyExn :=
| Exception (msg : string)
| KeyError (key : string)
| IndexError
| TypeError
| OverflowError
| AssertionError
| Upstream (what : string).

Inductive Res (A : Type) :=
| Ok (a : A)
| Raise (e : PyExn).
Arguments Ok {A} a.
Arguments Raise {A} e.

(** ** What the driver takes from its libraries

    [algosdk], [pyteal], [base64] and the contract module [contracts.amm]
    are not part of the driver.  What the driver uses of them is collected
    in one interface. *)

Record SuggestedParams := {
  sp_fee : Z;
  sp_first : Z;
  sp_last : Z;
  sp_gh : string;
}.

Inductive OnComplete := NoOpOC | OptInOC | CloseOutOC | ClearStateOC | UpdateApplicationOC | DeleteApplicationOC.

Record StateSchema := {
  num_uints : Z;
  num_byte_slices : Z;
}.

(** The fields each transaction constructor is called with in the driver. *)
Inductive TxnFields :=
| PaymentTxn (sender receiver : string) (amt : Z)
| AssetTransferTxn (sender receiver : string) (amt index : Z)
| AssetOptInTxn (sender : string) (index : Z)
| ApplicationCallTxn (sender : string) (index : Z) (on_complete : OnComplete)
    (app_args : list bytes) (foreign_assets : list Z)
| ApplicationCreateTxn (sender : string) (on_complete : OnComplete)
    (approval_program clear_program : bytes)
    (global_schema local_schema : StateSchema) (app_args : list bytes).

(** A transaction object: its fields, the network parameters it was built
    with, and the group identifier, unset until [assign_group_id]. *)
Record Transaction := {
  fields : TxnFields;
  sp : SuggestedParams;
  group : option bytes;
}.

(** Transaction objects are mutable ([assign_group_id] writes their [group]
    field in place), so the driver's variables hold references into a heap
    of objects. *)
Definition ref := nat.

(** [txn.sign(private_key)]: the signed-transaction object keeps a reference
    to the transaction object; the signature is represented by the key that
    made it. *)
Record SignedTransaction := {
  txn_of : ref;
  signature : string;
}.

(** What goes over the wire when a signed transaction is submitted: the
    transaction as it is at that moment, and the signature. *)
Record Submitted := {
  transaction : Transaction;
  signed_with : string;
}.

Record Library := {
  (** pyteal expressions and [compileTeal(e, mode=Mode.Application, version=6)] *)
  Expr : Type;
  approval_program : Expr;
  clear_program : Expr;
  compileTeal : Expr → Z → Res string;
  (** [base64.b64decode] *)
  b64decode : string → Res bytes;
  (** [encoding.decode_address], [logic.get_application_address] *)
  decode_address : string → Res bytes;
  get_application_address : Z → Res string;
  (** the checks a transaction constructor makes on its arguments:
      [None] when the object is built, the exception raised otherwise *)
  txn_check : TxnFields → SuggestedParams → option PyExn;
  (** the check [Transaction.sign] makes on the private key *)
  key_check : string → option PyExn;
  (** [transaction.calculate_group_id] and [Transaction.get_txid] *)
  calculate_group_id : list Transaction → Res bytes;
  get_txid : Transaction → string;
  (** [str()] of a list or a dictionary *)
  py_repr : PyVal → string;
}.

(** ** The node and its client *)

(** An [AlgodClient] over a node whose state has type [Node]: each method
    answers (or raises) and moves the node to a new state. *)
Record AlgodClient (Node : Type) := {
  status : Node → Res dict * Node;
  status_after_block : Z → Node → Res dict * Node;
  pending_transaction_info : string → Node → Res dict * Node;
  compile : string → Node → Res dict * Node;
  suggested_params : Node → Res SuggestedParams * Node;
  send_transaction : Submitted → Node → Res string * Node;
  send_transactions : list Submitted → Node → Res string * Node;
  application_info : Z → Node → Res dict * Node;
}.
Arguments status {Node}.
Arguments status_after_block {Node}.
Arguments pending_transaction_info {Node}.
Arguments compile {Node}.
Arguments suggested_params {Node}.
Arguments send_transaction {Node}.
Arguments send_transactions {Node}.
Arguments application_info {Node}.

(** The client calls a run makes, in order: each call with its arguments
    and with what the client answered. *)
Inductive Call :=
| CStatus (reply : Res dict)
| CStatusAfterBlock (round : Z) (reply : Res dict)
| CPendingTransactionInfo (txid : string) (reply : Res dict)
| CCompile (teal : string) (reply : Res dict)
| CSuggestedParams (reply : Res SuggestedParams)
| CSendTransaction (stxn : Submitted) (reply : Res string)
| CSendTransactions (stxns : list Submitted) (reply : Res string)
| CApplicationInfo (appID : Z) (reply : Res dict).

Record World (Node : Type) := {
  node : Node;
  calls : list Call;
  heap : list Transaction;
}.
Arguments Build_World {Node}.
Arguments node {Node}.
Arguments calls {Node}.
Arguments heap {Node}.

(** ** Computations: state of the world and exceptions *)

Definition M (Node A : Type) : Type := World Node → Res A * World Node.

Definition ret {Node A} (a : A) : M Node A := λ w, (Ok a, w).

Definition raise {Node A} (e : PyExn) : M Node A := λ w, (Raise e, w).

Definition bind {Node A B} (m : M Node A) (k : A → M Node B) : M Node B :=
  λ w, match m w with
       | (Ok a, w') => k a w'
       | (Raise e, w') => (Raise e, w')
       end.

Definition lift {Node A} (r : Res A) : M Node A := λ w, (r, w).

Declare Scope py_scope.
Delimit Scope py_scope with py.
Notation "x <- m ;; k" := (bind m (λ x, k))
  (at level 100, m at next level, right associativity) : py_scope.
Notation "m ;; k" := (bind m (λ _, k))
  (at level 100, right associativity) : py_scope.
Local Open Scope py_scope.

(** A client call: ask the node, and record the call. *)
Definition call {Node A} (c : Res A → Call) (method : Node → Res A * Node) : M Node A :=
  λ w, let (r, n) := method (node w) in
       (r, {| node := n; calls := calls w ++ [c r]; heap := heap w |}).

(** Pure code that may raise. *)
Definition rbind {A B} (r : Res A) (k : A → Res B) : Res B :=
  match r with
  | Ok a => k a
  | Raise e => Raise e
  end.
Notation "x <~ r ;; k" := (rbind r (λ x, k))
  (at level 100, r at next level, right associativity) : py_scope.

Fixpoint mapM {Node A B} (f : A → M Node B) (l : list A) : M Node (list B) :=
  match l with
  | [] => ret []
  | a :: l' => b <- f a ;; bs <- mapM f l' ;; ret (b :: bs)
  end.

(** *** Transaction objects *)

(** A constructor call: the library checks the arguments, then a new object
    with no group is allocated. *)
Definition new_txn {Node} (L : Library) (f : TxnFields) (p : SuggestedParams) : M Node ref :=
  λ w, match txn_check L f p with
       | Some e => (Raise e, w)
       | None =>
           (Ok (length (heap w)),
            {| node := node w; calls := calls w;
               heap := heap w ++ [{| fields := f; sp := p; group := None |}] |})
       end.

(** Reading an object.  References only come from [new_txn], so the second
    case does not arise in the driver. *)
Definition load {Node} (r : ref) : M Node Transaction :=
  λ w, match heap w !! r with
       | Some t => (Ok t, w)
       | None => (Raise IndexError, w)
       end.

Definition with_group (gid : bytes) (t : Transaction) : Transaction :=
  {| fields := fields t; sp := sp t; group := Some gid |}.

(** [tx.group = gid] *)
Definition set_group {Node} (gid : bytes) (r : ref) : M Node unit :=
  λ w, (Ok (),
        {| node := node w; calls := calls w;
           heap := alter (with_group gid) r (heap w) |}).

(** [transaction.assign_group_id(txns)]: one identifier is computed from all
    the transactions and written into each of them. *)
Definition assign_group_id {Node} (L : Library) (txns : list ref) : M Node unit :=
  objs <- mapM load txns ;;
  gid <- lift (calculate_group_id L objs) ;;
  mapM (set_group gid) txns ;;
  ret ().

(** [txn.sign(private_key)] *)
Definition sign {Node} (L : Library) (txn : ref) (private_key : string) : M Node SignedTransaction :=
  match key_check L private_key with
  | Some e => raise e
  | None => ret {| txn_of := txn; signature := private_key |}
  end.

(** [stxn.get_txid()] *)
Definition txid_of {Node} (L : Library) (stxn : SignedTransaction) : M Node string :=
  t <- load (txn_of stxn) ;;
  ret (get_txid L t).

(** Serialising a signed transaction for submission reads the object. *)
Definition wire {Node} (stxn : SignedTransaction) : M Node Submitted :=
  t <- load (txn_of stxn) ;;
  ret {| transaction := t; signed_with := signature stxn |}.

(** ** Python's operations on values *)

(** [d[k]] *)
Definition getitem (d : dict) (k : string) : Res PyVal :=
  match d !! k with
  | Some v => Ok v
  | None => Raise (KeyError k)
  end.

(** [d.get(k, default)] *)
Definition get (d : dict) (k : string) (default : PyVal) : PyVal :=
  match d !! k with
  | Some v => v
  | None => default
  end.

(** [v[k]] for a value that should be a dictionary *)
Definition subscript (v : PyVal) (k : string) : Res PyVal :=
  match v with
  | VDict d => getitem d k
  | _ => Raise TypeError
  end.

(** arithmetic and ordering comparisons need an integer *)
Definition as_int (v : PyVal) : Res Z :=
  match v with
  | VInt z => Ok z
  | _ => Raise TypeError
  end.

Definition as_str (v : PyVal) : Res string :=
  match v with
  | VStr s => Ok s
  | _ => Raise TypeError
  end.

(** [len(v)] *)
Definition py_len (v : PyVal) : Res nat :=
  match v with
  | VStr s => Ok (String.length s)
  | VList l => Ok (length l)
  | VDict d => Ok (size d)
  | _ => Raise TypeError
  end.

(** [v[i]] for an integer index [i] taken from [range(len(v))] *)
Definition index (v : PyVal) (i : nat) : Res PyVal :=
  match v with
  | VList l =>
      match l !! i with
      | Some x => Ok x
      | None => Raise IndexError
      end
  | VStr s =>
      match String.get i s with
      | Some c => Ok (VStr (String c ""))
      | None => Raise IndexError
      end
  | VDict d => Raise (KeyError (pretty i))
  | _ => Raise TypeError
  end.

(** [bool(v)], the test of an [if] *)
Definition truthy (v : PyVal) : bool :=
  match v with
  | VNone => false
  | VInt z => negb (z =? 0)
  | VStr s => negb (String.eqb s "")
  | VList l => negb (bool_decide (l = []))
  | VDict d => negb (bool_decide (size d = 0%nat))
  end.

(** [str(v)], as [str.format] renders an argument *)
Definition py_str (L : Library) (v : PyVal) : string :=
  match v with
  | VNone => "None"
  | VInt z => pretty z
  | VStr s => s
  | _ => py_repr L v
  end.

(** [z.to_bytes(length, "big")]: big-endian, unsigned *)
Fixpoint le_bytes (length : nat) (z : Z) : bytes :=
  match length with
  | O => []
  | S n =>
      match Byte.of_N (Z.to_N (z `mod` 256)) with
      | Some b => b :: le_bytes n (z `div` 256)
      | None => []
      end
  end.

Definition to_bytes (z : Z) (length : nat) : Res bytes :=
  if z <? 0 then Raise OverflowError
  else if 2 ^ (8 * Z.of_nat length) <=? z then Raise OverflowError
  else Ok (rev (le_bytes length z)).

(** [int.from_bytes(bs, "big")] *)
Definition from_bytes (bs : bytes) : Z :=
  fold_left (λ acc b, acc * 256 + Z.of_N (Byte.to_N b)) bs 0.

(** ** The driver *)

Definition MIN_BALANCE_REQUIREMENT : Z :=
  (* min account balance *)
  100000
  (* additional min balance for 3 assets *)
  + 100000 * 3.

Section Driver.
Context (L : Library) {Node : Type}.

Definition timeout_message (txID : string) (timeout : Z) : string :=
  "Transaction " +:+ txID +:+ " not confirmed after " +:+ pretty timeout +:+ " rounds".

Definition pool_error_message (reason : PyVal) : string :=
  "Pool error: " +:+ py_str L reason.

(** The [while] loop of [waitForTransaction]; [lastRound] is the loop
    variable, and the distance to [startRound + timeout] shrinks by one
    with every iteration. *)
Equations? wait_loop (client : AlgodClient Node) (txID : string) (timeout : Z)
    (startRound lastRound : Z) : M Node dict
    by wf (Z.to_nat (startRound + timeout - lastRound)) lt :=
  wait_loop client txID timeout startRound lastRound
    with Z_lt_dec lastRound (startRound + timeout) => {
    | left _ :=
        pending_txn <- call (CPendingTransactionInfo txID)
                            (pending_transaction_info client txID) ;;
        confirmed <- lift (as_int (get pending_txn "confirmed-round" (VInt 0))) ;;
        if 0 <? confirmed then ret pending_txn
        else
          pool_error <- lift (getitem pending_txn "pool-error") ;;
          if truthy pool_error then
            raise (Exception (pool_error_message pool_error))
          else
            lastStatus <- call (CStatusAfterBlock (lastRound + 1))
                               (status_after_block client (lastRound + 1)) ;;
            wait_loop client txID timeout startRound (lastRound + 1)
    | right _ :=
        raise (Exception (timeout_message txID timeout)) }.
Proof. lia. Qed.

Definition waitForTransaction (client : AlgodClient Node) (txID : string)
    (timeout : Z) : M Node dict :=
  lastStatus <- call CStatus (status client) ;;
  lastRound <- lift (getitem lastStatus "last-round") ;;
  lastRound <- lift (as_int lastRound) ;;
  let startRound := lastRound in
  wait_loop client txID timeout startRound lastRound.

(** [timeout: int = 10] *)
Definition default_timeout : Z := 10.

Definition fullyCompileContract (client : AlgodClient Node) (contract : Expr L) : M Node bytes :=
  teal <- lift (compileTeal L contract 6) ;;
  response <- call (CCompile teal) (compile client teal) ;;
  result <- lift (getitem response "result") ;;
  result <- lift (as_str result) ;;
  lift (b64decode L result).

Definition getContracts (client : AlgodClient Node) : M Node (bytes * bytes) :=
  APPROVAL_PROGRAM <- fullyCompileContract client (approval_program L) ;;
  CLEAR_STATE_PROGRAM <- fullyCompileContract client (clear_program L) ;;
  ret (APPROVAL_PROGRAM, CLEAR_STATE_PROGRAM).

Definition createAmmApp (client : AlgodClient Node)
    (tokenA tokenB feeBps minIncrement : Z) (creator private_key : string) : M Node Z :=
  programs <- getContracts client ;;
  let approval := programs.1 in
  let clear := programs.2 in
  let globalSchema := {| num_uints := 7; num_byte_slices := 1 |} in
  let localSchema := {| num_uints := 0; num_byte_slices := 0 |} in
  arg0 <- lift (decode_address L creator) ;;
  arg1 <- lift (to_bytes tokenA 8) ;;
  arg2 <- lift (to_bytes tokenB 8) ;;
  arg3 <- lift (to_bytes feeBps 8) ;;
  arg4 <- lift (to_bytes minIncrement 8) ;;
  let app_args := [arg0; arg1; arg2; arg3; arg4] in
  params <- call CSuggestedParams (suggested_params client) ;;
  txn <- new_txn L (ApplicationCreateTxn creator NoOpOC approval clear
                      globalSchema localSchema app_args) params ;;
  signedTxn <- sign L txn private_key ;;
  stx <- wire signedTxn ;;
  call (CSendTransaction stx) (send_transaction client stx) ;;
  txid <- txid_of L signedTxn ;;
  response <- waitForTransaction client txid default_timeout ;;
  application_index <- lift (getitem response "application-index") ;;
  match application_index with
  | VNone => raise AssertionError
  | _ =>
      i <- lift (as_int application_index) ;;
      if 0 <? i then ret i else raise AssertionError
  end.

Definition pool_token_key : bytes := String.list_byte_of_string "pool_token_key".

(** The scan of the global state, over the indices of [range(len(glob_state))]. *)
Fixpoint scan_global_state (glob_state : PyVal) (range : list nat) : Res PyVal :=
  match range with
  | [] => Ok VNone
  | i :: range' =>
      entry <~ index glob_state i ;;
      key <~ subscript entry "key" ;;
      key <~ as_str key ;;
      decoded <~ b64decode L key ;;
      if decide (decoded = pool_token_key) then
        entry <~ index glob_state i ;;
        value <~ subscript entry "value" ;;
        subscript value "uint"
      else scan_global_state glob_state range'
  end.

Definition setupAmmApp (client : AlgodClient Node)
    (appID tokenA tokenB : Z) (funder private_key : string) : M Node PyVal :=
  appAddr <- lift (get_application_address L appID) ;;
  suggestedParams <- call CSuggestedParams (suggested_params client) ;;
  let fundingAmount :=
    MIN_BALANCE_REQUIREMENT
    (* additional balance to create pool token and opt into tokens A and B *)
    + 1000 * 3 in
  fundAppTxn <- new_txn L (PaymentTxn funder appAddr fundingAmount) suggestedParams ;;
  setupTxn <- new_txn L (ApplicationCallTxn funder appID NoOpOC
                           [String.list_byte_of_string "setup"] [tokenA; tokenB])
                        suggestedParams ;;
  assign_group_id L [fundAppTxn; setupTxn] ;;
  signedFundAppTxn <- sign L fundAppTxn private_key ;;
  signedSetupTxn <- sign L setupTxn private_key ;;
  stxs <- mapM wire [signedFundAppTxn; signedSetupTxn] ;;
  call (CSendTransactions stxs) (send_transactions client stxs) ;;
  txid <- txid_of L signedFundAppTxn ;;
  waitForTransaction client txid default_timeout ;;
  info <- call (CApplicationInfo appID) (application_info client appID) ;;
  params <- lift (getitem info "params") ;;
  glob_state <- lift (subscript params "global-state") ;;
  n <- lift (py_len glob_state) ;;
  lift (scan_global_state glob_state (seq 0 n)).

Definition optInToPoolToken (client : AlgodClient Node)
    (appID : Z) (account private_key : string) (poolToken : Z) : M Node unit :=
  suggestedParams <- call CSuggestedParams (suggested_params client) ;;
  optInTxn <- new_txn L (AssetOptInTxn account poolToken) suggestedParams ;;
  signedOptInTxn <- sign L optInTxn private_key ;;
  stx <- wire signedOptInTxn ;;
  call (CSendTransaction stx) (send_transaction client stx) ;;
  txid <- txid_of L signedOptInTxn ;;
  waitForTransaction client txid default_timeout ;;
  ret ().

Definition supply (client : AlgodClient Node)
    (appID qA qB : Z) (supplier private_key : string)
    (tokenA tokenB poolToken : Z) : M Node unit :=
  appAddr <- lift (get_application_address L appID) ;;
  suggestedParams <- call CSuggestedParams (suggested_params client) ;;
  (* pay for the fee incurred by AMM for sending back the pool token *)
  feeTxn <- new_txn L (PaymentTxn supplier appAddr 2000) suggestedParams ;;
  tokenATxn <- new_txn L (AssetTransferTxn supplier appAddr qA tokenA) suggestedParams ;;
  tokenBTxn <- new_txn L (AssetTransferTxn supplier appAddr qB tokenB) suggestedParams ;;
  appCallTxn <- new_txn L (ApplicationCallTxn supplier appID NoOpOC
                             [String.list_byte_of_string "supply"]
                             [tokenA; tokenB; poolToken])
                          suggestedParams ;;
  assign_group_id L [feeTxn; tokenATxn; tokenBTxn; appCallTxn] ;;
  signedFeeTxn <- sign L feeTxn private_key ;;
  signedTokenATxn <- sign L tokenATxn private_key ;;
  signedTokenBTxn <- sign L tokenBTxn private_key ;;
  signedAppCallTxn <- sign L appCallTxn private_key ;;
  stxs <- mapM wire [signedFeeTxn; signedTokenATxn; signedTokenBTxn; signedAppCallTxn] ;;
  call (CSendTransactions stxs) (send_transactions client stxs) ;;
  txid <- txid_of L signedAppCallTxn ;;
  waitForTransaction client txid default_timeout ;;
  ret ().

End Driver.

(** ** Describing a run of the waiter

    The claims about [waitForTransaction] speak of the number of polls and
    of what the node answers to the N-th poll.  Both are read off the node
    and the recorded calls. *)

Definition is_poll (c : Call) : bool :=
  match c with
  | CPendingTransactionInfo _ _ => true
  | _ => false
  end.

(** How many times [pending_transaction_info] was called. *)
Definition polls (cs : list Call) : nat := length (List.filter is_poll cs).

(** The calls made between two states of the world. *)
Definition calls_since {Node} (w w' : World Node) : list Call :=
  drop (length (calls w)) (calls w').

(** A response that shows the transaction neither confirmed nor rejected:
    confirmed-round reads as 0 and the pool-error is the empty string. *)
Definition still_pending (d : dict) : Prop :=
  get d "confirmed-round" (VInt 0) = VInt 0 ∧ d !! "pool-error" = Some (VStr "").

Section Polling.
Context {Node : Type} (client : AlgodClient Node) (txID : string).

(** The node after one more round of waiting that started at [lastRound]:
    it answered a poll and then [status_after_block (lastRound + 1)]. *)
Definition after_round (lastRound : Z) (n : Node) : Node :=
  (status_after_block client (lastRound + 1)
     (pending_transaction_info client txID n).2).2.

(** The node just before poll number [k + 1], when the waiter started at
    round [r0] with the node in state [n0] and has kept waiting so far. *)
Fixpoint node_before_poll (r0 : Z) (n0 : Node) (k : nat) : Node :=
  match k with
  | O => n0
  | S k' => after_round (r0 + Z.of_nat k') (node_before_poll r0 n0 k')
  end.

(** The node's answer to poll number [k + 1]. *)
Definition poll_response (r0 : Z) (n0 : Node) (k : nat) : Res dict :=
  (pending_transaction_info client txID (node_before_poll r0 n0 k)).1.

(** The node's answer to the wait for the next block after poll number [k + 1]. *)
Definition block_response (r0 : Z) (n0 : Node) (k : nat) : Res dict :=
  (status_after_block client (r0 + Z.of_nat k + 1)
     (pending_transaction_info client txID (node_before_poll r0 n0 k)).2).1.

(** Poll number [k + 1] finds the transaction pending and the next block arrives. *)
Definition pending_round (r0 : Z) (n0 : Node) (k : nat) : Prop :=
  (∃ d, poll_response r0 n0 k = Ok d ∧ still_pending d) ∧
  (∃ st, block_response r0 n0 k = Ok st).

(** The calls of [m] rounds of waiting. *)
Definition rounds_trace (r0 : Z) (n0 : Node) (m : nat) : list Call :=
  flat_map (λ k, [CPendingTransactionInfo txID (poll_response r0 n0 k);
                  CStatusAfterBlock (r0 + Z.of_nat k + 1) (block_response r0 n0 k)])
           (seq 0 m).

End Polling.

(** ** Describing what a run submits *)

Definition is_submission (c : Call) : bool :=
  match c with
  | CSendTransaction _ _ | CSendTransactions _ _ => true
  | _ => false
  end.

(** The submissions among a list of calls, in order. *)
Definition submissions (cs : list Call) : list Call := List.filter is_submission cs.

(** Everything else only asks the node something. *)
Definition is_query (c : Call) : bool := negb (is_submission c).

(** The calls of the confirmation waiter: status, poll, wait for a block. *)
Definition is_wait (c : Call) : bool :=
  match c with
  | CStatus _ | CStatusAfterBlock _ _ | CPendingTransactionInfo _ _ => true
  | _ => false
  end.

Definition is_compile (c : Call) : bool :=
  match c with
  | CCompile _ _ => true
  | _ => false
  end.

(** [bs] is the [n]-byte big-endian encoding of [z]. *)
Definition is_big_endian (n : nat) (z : Z) (bs : bytes) : Prop :=
  length bs = n ∧ from_bytes bs = z.

(** A response that shows the transaction confirmed. *)
Definition confirmed (d : dict) : Prop :=
  ∃ c, get d "confirmed-round" (VInt 0) = VInt c ∧ 0 < c.

(** What [createAmmApp] makes of the confirmation it waited for: the
    assertion on the application index and the returned value. *)
Definition check_application_index (response : dict) : Res Z :=
  application_index <~ getitem response "application-index" ;;
  match application_index with
  | VNone => Raise AssertionError
  | _ =>
      i <~ as_int application_index ;;
      if 0 <? i then Ok i else Raise AssertionError
  end.

(** ** Describing global-state entries *)

(** [b64decode(entry['key'])] *)
Definition key_of (L : Library) (entry : PyVal) : Res bytes :=
  key <~ subscript entry "key" ;;
  key <~ as_str key ;;
  b64decode L key.

(** [entry['value']['uint']] *)
Definition uint_of (entry : PyVal) : Res PyVal :=
  value <~ subscript entry "value" ;;
  subscript value "uint".

(** What [setupAmmApp] makes of the application info it fetched: the part
    of the function after the call of [application_info], which no longer
    touches the node. *)
Definition read_pool_token (L : Library) (info : dict) : Res PyVal :=
  params <~ getitem info "params" ;;
  glob_state <~ subscript params "global-state" ;;
  n <~ py_len glob_state ;;
  scan_global_state L glob_state (seq 0 n).

(** An entry with a well-formed key that is not the pool-token key. *)
Definition other_key (L : Library) (entry : PyVal) : Prop :=
  ∃ k, key_of L entry = Ok k ∧ k ≠ pool_token_key.

(** ** Reasoning about computations

    [wp m w Q]: running [m] from the world [w] ends, with a result or an
    exception, in a world that satisfies [Q]. *)
Definition wp {Node A} (m : M Node A) (w : World Node)
    (Q : Res A → World Node → Prop) : Prop :=
  Q (m w).1 (m w).2.

(** [only_calls P m]: from any world, [m] leaves the transaction objects
    alone and the calls it adds all satisfy [P]. *)
Definition only_calls {Node A} (P : Call → bool) (m : M Node A) : Prop :=
  ∀ w Q,
    (∀ r nd cs, Forall (λ c, P c = true) cs →
                Q r {| node := nd; calls := calls w ++ cs; heap := heap w |}) →
    wp m w Q.

(** ** A small node to run the driver against

    A library instance and a scripted client, used to run the driver on
    concrete inputs. *)

Definition demo_b64decode (s : string) : Res bytes :=
  if String.eqb s "cG9vbF90b2tlbl9rZXk=" then Ok (String.list_byte_of_string "pool_token_key")
  else if String.eqb s "dG9rZW5fYV9rZXk=" then Ok (String.list_byte_of_string "token_a_key")
  else if String.eqb s "dG9rZW5fYl9rZXk=" then Ok (String.list_byte_of_string "token_b_key")
  else if String.eqb s "BoEB" then Ok [x06; x81; x01]
  else Raise (Upstream "binascii.Error").

Definition demo_library : Library := {|
  Expr := string;
  approval_program := "approval";
  clear_program := "clear";
  compileTeal := λ e version, Ok e;
  b64decode := demo_b64decode;
  decode_address := λ a, Ok (String.list_byte_of_string a);
  get_application_address := λ appID, Ok ("APP" +:+ pretty appID);
  txn_check := λ _ _, None;
  key_check := λ _, None;
  calculate_group_id := λ txns, Ok [x2a];
  get_txid := λ t, "TXID";
  py_repr := λ v, "...";
|}.

Definition demo_params : SuggestedParams :=
  {| sp_fee := 1000; sp_first := 100; sp_last := 1100; sp_gh := "GENESIS" |}.

(** The node counts the polls it has answered; [answers k] is its answer
    to the poll made after [k] earlier ones, and [info] its answer to
    [application_info]. *)
Definition demo_client (answers : nat → dict) (info : dict) : AlgodClient nat := {|
  status := λ n, (Ok {[ "last-round" := VInt 100 ]}, n);
  status_after_block := λ r n, (Ok {[ "last-round" := VInt r ]}, n);
  pending_transaction_info := λ txid n, (Ok (answers n), S n);
  compile := λ teal n, (Ok {[ "result" := VStr "BoEB" ]}, n);
  suggested_params := λ n, (Ok demo_params, n);
  send_transaction := λ stx n, (Ok "TXID", n);
  send_transactions := λ stxs n, (Ok "TXID", n);
  application_info := λ appID n, (Ok info, n);
|}.

Definition demo_world : World nat := {| node := 0%nat; calls := []; heap := [] |}.

(** Answers of the node to a poll. *)
Definition answer_pending : dict := {[ "pool-error" := VStr "" ]}.

Definition answer_rejected : dict :=
  {[ "pool-error" := VStr "overspend"; "confirmed-round" := VInt 0 ]}.

Definition answer_confirmed : dict :=
  {[ "pool-error" := VStr ""; "confirmed-round" := VInt 103 ]}.

Definition answer_created (application_index : PyVal) : dict :=
  {[ "pool-error" := VStr ""; "confirmed-round" := VInt 101;
     "application-index" := application_index ]}.

(** Confirmed on the third poll. *)
Definition answers_third (k : nat) : dict :=
  match k with
  | 2%nat => answer_confirmed
  | _ => answer_pending
  end.

Definition teal_value (uint : Z) : PyVal :=
  VDict {[ "bytes" := VStr ""; "type" := VInt 2; "uint" := VInt uint ]}.

Definition demo_info (entries : list PyVal) : dict :=
  {[ "id" := VInt 77;
     "params" := VDict {[ "creator" := VStr "CREATOR";
                          "global-state" := VList entries ]} ]}.

Definition entries_with_pool_token : list PyVal :=
  [ VDict {[ "key" := VStr "dG9rZW5fYV9rZXk="; "value" := teal_value 11 ]};
    VDict {[ "key" := VStr "cG9vbF90b2tlbl9rZXk="; "value" := teal_value 4242 ]};
    VDict {[ "key" := VStr "dG9rZW5fYl9rZXk="; "value" := teal_value 12 ]} ].

Definition entries_without_pool_token : list PyVal :=
  [ VDict {[ "key" := VStr "dG9rZW5fYV9rZXk="; "value" := teal_value 11 ]};
    VDict {[ "key" := VStr "dG9rZW5fYl9rZXk="; "value" := teal_value 12 ]} ].

(** What the demo runs submit. *)
Definition demo_create_stx : Submitted :=
  {| transaction :=
       {| fields := ApplicationCreateTxn "CREATOR" NoOpOC
                      [x06; x81; x01] [x06; x81; x01]
                      {| num_uints := 7; num_byte_slices := 1 |}
                      {| num_uints := 0; num_byte_slices := 0 |}
                      [ String.list_byte_of_string "CREATOR";
                        [x00; x00; x00; x00; x00; x00; x00; x01];
                        [x00; x00; x00; x00; x00; x00; x00; x02];
                        [x00; x00; x00; x00; x00; x00; x00; x1e];
                        [x00; x00; x00; x00; x00; x00; x00; x01] ];
          sp := demo_params; group := None |};
     signed_with := "KEY" |}.

Definition demo_grouped (f : TxnFields) : Submitted :=
  {| transaction := {| fields := f; sp := demo_params; group := Some [x2a] |};
     signed_with := "KEY" |}.

Definition demo_setup_group : Call :=
  CSendTransactions
    [ demo_grouped (PaymentTxn "FUNDER" "APP77" 403000);
      demo_grouped (ApplicationCallTxn "FUNDER" 77 NoOpOC
                      [String.list_byte_of_string "setup"] [1; 2]) ]
    (Ok "TXID").

Definition demo_supply_group : Call :=
  CSendTransactions
    [ demo_grouped (PaymentTxn "SUPPLIER" "APP77" 2000);
      demo_grouped (AssetTransferTxn "SUPPLIER" "APP77" 500 1);
      demo_grouped (AssetTransferTxn "SUPPLIER" "APP77" 800 2);
      demo_grouped (ApplicationCallTxn "SUPPLIER" 77 NoOpOC
                      [String.list_byte_of_string "supply"] [1; 2; 3]) ]
    (Ok "TXID").

(** ** Describing the calls of the waiter

    [wait_trace txID r cs]: [cs] is what the loop of the waiter can add to
    the calls when it starts an iteration with [lastRound = r]: polls for
    [txID], each followed, while the loop goes on, by a wait for the block
    after the current round. *)
Inductive wait_trace (txID : string) : Z → list Call → Prop :=
| wait_trace_end (r : Z) :
    wait_trace txID r []
| wait_trace_poll (r : Z) (reply : Res dict) :
    wait_trace txID r [CPendingTransactionInfo txID reply]
| wait_trace_round (r : Z) (reply reply' : Res dict) (cs : list Call) :
    wait_trace txID (r + 1) cs →
    wait_trace txID r
      (CPendingTransactionInfo txID reply :: CStatusAfterBlock (r + 1) reply' :: cs).

(** A client whose polls, waits for a block and application info may also
    raise; [polls_script k] answers the poll made after [k] earlier ones. *)
Definition scripted_client (polls_script : nat → Res dict) (blocks : Z → Res dict)
    (info : Res dict) : AlgodClient nat := {|
  status := λ n, (Ok {[ "last-round" := VInt 100 ]}, n);
  status_after_block := λ r n, (blocks r, n);
  pending_transaction_info := λ txid n, (polls_script n, S n);
  compile := λ teal n, (Ok {[ "result" := VStr "BoEB" ]}, n);
  suggested_params := λ n, (Ok demo_params, n);
  send_transaction := λ stx n, (Ok "TXID", n);
  send_transactions := λ stxs n, (Ok "TXID", n);
  application_info := λ appID n, (info, n);
|}.

Definition next_block (r : Z) : Res dict := Ok {[ "last-round" := VInt r ]}.

(** An answer without the "pool-error" key. *)
Definition answer_bare : dict := {[ "confirmed-round" := VInt 0 ]}.

(** Pending, pending, then the given reply. *)
Definition third_reply (reply : Res dict) (k : nat) : Res dict :=
  match k with
  | 2%nat => reply
  | _ => Ok answer_pending
  end.

(** The node produces blocks until round [bad], where the wait fails. *)
Definition blocks_until (bad : Z) (r : Z) : Res dict :=
  if r =? bad then Raise (Upstream "connection reset") else next_block r.

(** Application info of an application without global state. *)
Definition demo_info_bare : dict :=
  {[ "id" := VInt 77; "params" := VDict {[ "creator" := VStr "CREATOR" ]} ]}.

(** The second entry has no key; the pool token comes after it. *)
Definition entries_unreadable_key : list PyVal :=
  [ VDict {[ "key" := VStr "dG9rZW5fYV9rZXk="; "value" := teal_value 11 ]};
    VDict {[ "value" := teal_value 12 ]};
    VDict {[ "key" := VStr "cG9vbF90b2tlbl9rZXk="; "value" := teal_value 4242 ]} ].

(** The first pool-token entry has a value without "uint"; a second one
    follows. *)
Definition entries_unreadable_value : list PyVal :=
  [ VDict {[ "key" := VStr "dG9rZW5fYV9rZXk="; "value" := teal_value 11 ]};
    VDict {[ "key" := VStr "cG9vbF90b2tlbl9rZXk=";
             "value" := VDict {[ "bytes" := VStr ""; "type" := VInt 2 ]} ]};
    VDict {[ "key" := VStr "cG9vbF90b2tlbl9rZXk="; "value" := teal_value 4242 ]} ].

Definition demo_optin_stx : Submitted :=
  {| transaction := {| fields := AssetOptInTxn "ACCOUNT" 3;
                       sp := demo_params; group := None |};
     signed_with := "KEY" |}.

(** The integers [int.to_bytes(8, "big")] accepts. *)
Definition uint64 (z : Z) : Prop := 0 ≤ z < 2 ^ 64.

(** [polls_within n m]: from any world, [m] only adds to the calls, and it
    adds at most [n] polls. *)
Definition polls_within {Node A} (n : nat) (m : M Node A) : Prop :=
  ∀ w, ∃ cs, calls (m w).2 = calls w ++ cs ∧ (polls cs ≤ n)%nat.

(** * Properties *)

(** ** Rules for [wp] *)

Section Rules.
Context {Node : Type}.
Implicit Types w : World Node.

Lemma wp_ret {A} (a : A) w Q : Q (Ok a) w → wp (ret a) w Q.
Proof. exact id. Qed.

Lemma wp_raise {A} e w (Q : Res A → World Node → Prop) :
  Q (Raise e) w → wp (raise e) w Q.
Proof. exact id. Qed.

Lemma wp_lift {A} (r : Res A) w Q : Q r w → wp (lift r) w Q.
Proof. exact id. Qed.

Lemma wp_bind {A B} (m : M Node A) (k : A → M Node B) w Q :
  wp m w (λ r w1, match r with
                  | Ok a => wp (k a) w1 Q
                  | Raise e => Q (Raise e) w1
                  end) →
  wp (bind m k) w Q.
Proof.
  unfold wp, bind. destruct (m w) as [[a|e] w1]; simpl; auto.
Qed.

Lemma wp_call {A} (c : Res A → Call) (method : Node → Res A * Node) w Q :
  (∀ r n, method (node w) = (r, n) →
          Q r {| node := n; calls := calls w ++ [c r]; heap := heap w |}) →
  wp (call c method) w Q.
Proof.
  intros H. unfold wp, call. destruct (method (node w)) as [r n] eqn:E.
  simpl. apply H. reflexivity.
Qed.

Lemma wp_new_txn (L : Library) f p w (Q : Res ref → World Node → Prop) :
  (∀ e, txn_check L f p = Some e → Q (Raise e) w) →
  (txn_check L f p = None →
   Q (Ok (length (heap w)))
     {| node := node w; calls := calls w;
        heap := heap w ++ [{| fields := f; sp := p; group := None |}] |}) →
  wp (new_txn L f p) w Q.
Proof.
  intros He Hn. unfold wp, new_txn.
  destruct (txn_check L f p) as [e|]; simpl; auto.
Qed.

Lemma wp_load (r : ref) w (Q : Res Transaction → World Node → Prop) :
  (∀ t, heap w !! r = Some t → Q (Ok t) w) →
  (heap w !! r = None → Q (Raise IndexError) w) →
  wp (load r) w Q.
Proof.
  intros Hs Hn. unfold wp, load. destruct (heap w !! r) as [t|]; simpl; auto.
Qed.

Lemma wp_sign (L : Library) (r : ref) key w (Q : Res SignedTransaction → World Node → Prop) :
  (∀ e, key_check L key = Some e → Q (Raise e) w) →
  (key_check L key = None → Q (Ok {| txn_of := r; signature := key |}) w) →
  wp (sign L r key) w Q.
Proof.
  intros He Hn. unfold wp, sign. destruct (key_check L key) as [e|]; simpl; auto.
Qed.

Lemma only_calls_pure {A} P (r : Res A) : only_calls (Node := Node) P (lift r).
Proof.
  intros w Q HQ. specialize (HQ r (node w) []).
  rewrite app_nil_r in HQ. destruct w. apply HQ. constructor.
Qed.

Lemma only_calls_ret {A} P (a : A) : only_calls (Node := Node) P (ret a).
Proof. apply (only_calls_pure P (Ok a)). Qed.

Lemma only_calls_raise {A} P e : only_calls (Node := Node) P (raise (A := A) e).
Proof. apply (only_calls_pure P (Raise e)). Qed.

Lemma only_calls_load P (r : ref) : only_calls (Node := Node) P (load r).
Proof.
  intros w Q HQ. unfold wp, load.
  destruct (heap w !! r); simpl;
    [ specialize (HQ (Ok t) (node w) []) | specialize (HQ (Raise IndexError) (node w) []) ];
    rewrite app_nil_r in HQ; destruct w; apply HQ; constructor.
Qed.

Lemma only_calls_call {A} P (c : Res A → Call) (method : Node → Res A * Node) :
  (∀ r, P (c r) = true) → only_calls P (call c method).
Proof.
  intros Hc w Q HQ. apply wp_call. intros r n _. apply (HQ _ _ [_]).
  repeat constructor. apply Hc.
Qed.

Lemma only_calls_bind {A B} P (m : M Node A) (k : A → M Node B) :
  only_calls P m → (∀ a, only_calls P (k a)) → only_calls P (bind m k).
Proof.
  intros Hm Hk w Q HQ. apply wp_bind, Hm. intros [a|e] nd cs Hcs; [|auto].
  apply Hk. intros r nd' cs' Hcs'. simpl. rewrite <- app_assoc.
  apply HQ, Forall_app. auto.
Qed.

Lemma wp_eq {A} (m : M Node A) w r w' (Q : Res A → World Node → Prop) :
  m w = (r, w') → Q r w' → wp m w Q.
Proof. intros E H. unfold wp. rewrite E. exact H. Qed.

Lemma only_calls_wire P (stxn : SignedTransaction) :
  only_calls (Node := Node) P (wire stxn).
Proof.
  unfold wire. apply only_calls_bind; [apply only_calls_load | intros t].
  apply only_calls_ret.
Qed.

Lemma only_calls_mono {A} (P P' : Call → bool) (m : M Node A) :
  (∀ c, P c = true → P' c = true) → only_calls P m → only_calls P' m.
Proof.
  intros HP Hm w Q HQ. apply Hm. intros r nd cs Hcs. apply HQ.
  eapply Forall_impl; [exact Hcs | exact HP].
Qed.

End Rules.

(** ** The confirmation waiter *)

Lemma polls_app (cs1 cs2 : list Call) : polls (cs1 ++ cs2) = (polls cs1 + polls cs2)%nat.
Proof. unfold polls. rewrite List.filter_app, length_app. reflexivity. Qed.

Lemma calls_since_app {Node} (w w' : World Node) (cs : list Call) :
  calls w' = calls w ++ cs → calls_since w w' = cs.
Proof. intros H. unfold calls_since. rewrite H. apply drop_app_length. Qed.

Lemma rounds_trace_S {Node} (client : AlgodClient Node) (txID : string) (r0 : Z) n0 (m : nat) :
  rounds_trace client txID r0 n0 (S m) =
  rounds_trace client txID r0 n0 m ++
    [CPendingTransactionInfo txID (poll_response client txID r0 n0 m);
     CStatusAfterBlock (r0 + Z.of_nat m + 1) (block_response client txID r0 n0 m)].
Proof.
  unfold rounds_trace. rewrite seq_S, flat_map_app. simpl. reflexivity.
Qed.

Lemma polls_rounds_trace {Node} (client : AlgodClient Node) (txID : string) (r0 : Z) n0 (m : nat) :
  polls (rounds_trace client txID r0 n0 m) = m.
Proof.
  induction m as [|m IH]; [reflexivity|].
  rewrite rounds_trace_S, polls_app, IH. unfold polls. simpl. lia.
Qed.

Lemma still_pending_not_confirmed (d : dict) :
  still_pending d →
  as_int (get d "confirmed-round" (VInt 0)) = Ok 0 ∧
  getitem d "pool-error" = Ok (VStr "").
Proof.
  intros [Hc Hp]. rewrite Hc. unfold getitem. rewrite Hp. split; reflexivity.
Qed.

Section Waiter.
Context (L : Library) {Node : Type} (client : AlgodClient Node) (txID : string).

(** One unfolding of the loop. *)
Lemma wait_loop_eq timeout startRound lastRound (w : World Node) :
  wait_loop L client txID timeout startRound lastRound w =
  (if decide (lastRound < startRound + timeout) then
     pending_txn <- call (CPendingTransactionInfo txID)
                         (pending_transaction_info client txID) ;;
     confirmed <- lift (as_int (get pending_txn "confirmed-round" (VInt 0))) ;;
     if 0 <? confirmed then ret pending_txn
     else
       pool_error <- lift (getitem pending_txn "pool-error") ;;
       if truthy pool_error then
         raise (Exception (pool_error_message L pool_error))
       else
         lastStatus <- call (CStatusAfterBlock (lastRound + 1))
                            (status_after_block client (lastRound + 1)) ;;
         wait_loop L client txID timeout startRound (lastRound + 1)
   else raise (Exception (timeout_message txID timeout))) w.
Proof.
  rewrite wait_loop_unfold_eq. unfold wait_loop_unfold.
  destruct (Z_lt_dec lastRound (startRound + timeout)); simpl;
  case_decide; try lia; reflexivity.
Qed.

(** The loop leaves at once when the budget is used up. *)
Lemma wait_loop_exhausted timeout startRound lastRound (w : World Node) :
  startRound + timeout ≤ lastRound →
  wait_loop L client txID timeout startRound lastRound w =
  (Raise (Exception (timeout_message txID timeout)), w).
Proof.
  intros Hle. rewrite wait_loop_eq. case_decide; [lia|]. reflexivity.
Qed.

(** While the node reports the transaction pending, the loop goes round:
    after [m] such rounds it is at [lastRound = r0 + m], having made [m]
    polls and [m] waits for the next block. *)
Lemma wait_loop_pending_rounds (m : nat) timeout r0 (w : World Node) :
  Z.of_nat m ≤ Z.max 0 timeout →
  (∀ k, (k < m)%nat → pending_round client txID r0 (node w) k) →
  wait_loop L client txID timeout r0 r0 w =
  wait_loop L client txID timeout r0 (r0 + Z.of_nat m)
    {| node := node_before_poll client txID r0 (node w) m;
       calls := calls w ++ rounds_trace client txID r0 (node w) m;
       heap := heap w |}.
Proof.
  induction m as [|m IH]; intros Hm Hpend.
  - simpl. rewrite Z.add_0_r, app_nil_r. destruct w; reflexivity.
  - rewrite IH by (try lia; intros k Hk; apply Hpend; lia).
    rewrite wait_loop_eq. case_decide; [|lia].
    destruct (Hpend m ltac:(lia)) as [(d & Hd & Hpd) [st Hst]].
    apply still_pending_not_confirmed in Hpd as [Hc Hp].
    rewrite rounds_trace_S, Hd, Hst.
    unfold poll_response in Hd. unfold block_response in Hst.
    unfold bind at 1. unfold call at 1. simpl.
    destruct (pending_transaction_info client txID
                (node_before_poll client txID r0 (node w) m)) as [r n1] eqn:Epoll.
    simpl in Hd, Hst. subst r.
    unfold bind at 1. unfold lift at 1. rewrite Hc. simpl.
    unfold bind at 1. unfold lift at 1. rewrite Hp. simpl.
    unfold bind at 1. unfold call at 1. simpl.
    destruct (status_after_block client (r0 + Z.of_nat m + 1) n1) as [r n2] eqn:Eblock.
    simpl in Hst. subst r.
    unfold after_round. rewrite Epoll. simpl. rewrite Eblock. simpl.
    rewrite <- !app_assoc. simpl.
    replace (r0 + Z.of_nat m + 1) with (r0 + Z.pos (Pos.of_succ_nat m)) by lia.
    reflexivity.
Qed.

(** The prologue: read the current round, then enter the loop. *)
Lemma waitForTransaction_start timeout (w : World Node) st n0 r0 :
  status client (node w) = (Ok st, n0) →
  st !! "last-round" = Some (VInt r0) →
  waitForTransaction L client txID timeout w =
  wait_loop L client txID timeout r0 r0
    {| node := n0; calls := calls w ++ [CStatus (Ok st)]; heap := heap w |}.
Proof.
  intros Hst Hr. unfold waitForTransaction.
  unfold bind at 1. unfold call at 1. rewrite Hst.
  unfold bind at 1. unfold lift at 1. unfold getitem. rewrite Hr.
  reflexivity.
Qed.

(** C1: a transaction that stays pending (every poll within the budget
    answers confirmed-round 0 and an empty pool-error, and the node keeps
    producing blocks) makes the waiter poll once per round of the budget,
    [timeout] times, and then fail with the exception whose message names
    the transaction ID and the round count.  The count is [Z.to_nat timeout]:
    [timeout] itself for a budget that is a number of rounds. *)
Theorem waitForTransaction_times_out timeout (w : World Node) st n0 r0 :
  status client (node w) = (Ok st, n0) →
  st !! "last-round" = Some (VInt r0) →
  (∀ k, Z.of_nat k < timeout → pending_round client txID r0 n0 k) →
  ∃ w',
    waitForTransaction L client txID timeout w =
      (Raise (Exception ("Transaction " +:+ txID +:+ " not confirmed after "
                           +:+ pretty timeout +:+ " rounds")), w') ∧
    polls (calls_since w w') = Z.to_nat timeout.
Proof.
  intros Hst Hr Hpend.
  rewrite (waitForTransaction_start _ _ _ _ _ Hst Hr).
  rewrite (wait_loop_pending_rounds (Z.to_nat timeout)); simpl;
    [| lia | intros k Hk; apply Hpend; lia].
  rewrite wait_loop_exhausted by lia.
  eexists. split; [reflexivity|].
  erewrite calls_since_app by (simpl; rewrite <- app_assoc; reflexivity).
  rewrite polls_app, polls_rounds_trace. reflexivity.
Qed.

(** C2: when the first poll answers confirmed-round 0 and a non-empty
    pool-error string, the waiter fails at once with the exception carrying
    that text: the only calls are the initial status query and that one
    poll, and no wait for a further round.  (A first poll takes place when
    the round budget is positive.) *)
Theorem waitForTransaction_rejected timeout (w : World Node) st n0 r0 d n1 reason :
  0 < timeout →
  status client (node w) = (Ok st, n0) →
  st !! "last-round" = Some (VInt r0) →
  pending_transaction_info client txID n0 = (Ok d, n1) →
  get d "confirmed-round" (VInt 0) = VInt 0 →
  d !! "pool-error" = Some (VStr reason) →
  reason ≠ "" →
  waitForTransaction L client txID timeout w =
    (Raise (Exception ("Pool error: " +:+ reason)),
     {| node := n1;
        calls := calls w ++ [CStatus (Ok st); CPendingTransactionInfo txID (Ok d)];
        heap := heap w |}) ∧
  polls (calls_since w (waitForTransaction L client txID timeout w).2) = 1%nat.
Proof.
  intros Ht Hst Hr Hpoll Hc Hp Hne.
  assert (waitForTransaction L client txID timeout w =
    (Raise (Exception ("Pool error: " +:+ reason)),
     {| node := n1;
        calls := calls w ++ [CStatus (Ok st); CPendingTransactionInfo txID (Ok d)];
        heap := heap w |})) as Hrun.
  { rewrite (waitForTransaction_start _ _ _ _ _ Hst Hr).
    rewrite wait_loop_eq. case_decide; [|lia].
    unfold bind at 1. unfold call at 1. simpl. rewrite Hpoll.
    unfold bind at 1. unfold lift at 1. rewrite Hc. simpl.
    unfold bind at 1. unfold lift at 1. unfold getitem. rewrite Hp. simpl.
    destruct (String.eqb_spec reason ""); [contradiction|]. simpl.
    unfold raise. rewrite <- app_assoc. reflexivity. }
  split; [exact Hrun|].
  rewrite Hrun. simpl.
  erewrite calls_since_app by reflexivity. reflexivity.
Qed.

(** C3: when the first [N - 1] polls find the transaction pending and poll
    number [N] (with [1 ≤ N ≤ timeout]) answers a positive confirmed-round,
    the waiter returns that answer, after [N] polls. *)
Theorem waitForTransaction_confirmed timeout (w : World Node) st n0 r0 (N : nat) d c :
  (1 ≤ N)%nat →
  Z.of_nat N ≤ timeout →
  status client (node w) = (Ok st, n0) →
  st !! "last-round" = Some (VInt r0) →
  (∀ k, (k < N - 1)%nat → pending_round client txID r0 n0 k) →
  poll_response client txID r0 n0 (N - 1) = Ok d →
  get d "confirmed-round" (VInt 0) = VInt c →
  0 < c →
  ∃ w',
    waitForTransaction L client txID timeout w = (Ok d, w') ∧
    polls (calls_since w w') = N.
Proof.
  intros HN Ht Hst Hr Hpend Hd Hc Hpos.
  rewrite (waitForTransaction_start _ _ _ _ _ Hst Hr).
  rewrite (wait_loop_pending_rounds (N - 1)); simpl; [| lia | exact Hpend].
  rewrite wait_loop_eq. case_decide; [|lia].
  unfold poll_response in Hd.
  unfold bind at 1. unfold call at 1. simpl.
  destruct (pending_transaction_info client txID
              (node_before_poll client txID r0 n0 (N - 1))) as [r n1].
  simpl in Hd. subst r.
  unfold bind at 1. unfold lift at 1. rewrite Hc. simpl.
  destruct (Z.ltb_spec 0 c); [|lia].
  eexists. split; [reflexivity|].
  erewrite calls_since_app by (simpl; rewrite <- !app_assoc; reflexivity).
  rewrite !polls_app, polls_rounds_trace. unfold polls. simpl. lia.
Qed.

(** C10: with a round budget of 0 or less the waiter never calls
    [pending_transaction_info], whatever the node would have answered, and
    (once the initial status query has told it the current round) raises
    the timeout exception. *)
Theorem waitForTransaction_no_budget timeout (w : World Node) :
  timeout ≤ 0 →
  polls (calls_since w (waitForTransaction L client txID timeout w).2) = 0%nat ∧
  ∀ st n0 r0,
    status client (node w) = (Ok st, n0) →
    st !! "last-round" = Some (VInt r0) →
    waitForTransaction L client txID timeout w =
      (Raise (Exception ("Transaction " +:+ txID +:+ " not confirmed after "
                           +:+ pretty timeout +:+ " rounds")),
       {| node := n0; calls := calls w ++ [CStatus (Ok st)]; heap := heap w |}).
Proof.
  intros Ht. split.
  - unfold waitForTransaction.
    unfold bind at 1. unfold call at 1.
    destruct (status client (node w)) as [[st|e] n0]; simpl;
      [| erewrite calls_since_app by reflexivity; reflexivity].
    unfold bind at 1. unfold lift at 1.
    destruct (getitem st "last-round") as [v|e]; simpl;
      [| erewrite calls_since_app by reflexivity; reflexivity].
    unfold bind at 1. unfold lift at 1.
    destruct (as_int v) as [r|e]; simpl;
      [| erewrite calls_since_app by reflexivity; reflexivity].
    rewrite wait_loop_exhausted by lia. simpl.
    erewrite calls_since_app by reflexivity. reflexivity.
  - intros st n0 r0 Hst Hr.
    rewrite (waitForTransaction_start _ _ _ _ _ Hst Hr).
    apply wait_loop_exhausted. lia.
Qed.

(** Whatever the node answers, the waiter only queries it (every call it
    makes is a status query, a poll or a wait for a block), it leaves the
    transaction objects alone, and a poll answered with a confirmation
    ends it: the answer is what it returns. *)
Lemma wp_wait_loop timeout r0 lastRound (w : World Node) Q :
  (∀ r nd cs,
     Forall (λ c, is_wait c = true) cs →
     (∀ tx d, CPendingTransactionInfo tx (Ok d) ∈ cs → confirmed d → r = Ok d) →
     Q r {| node := nd; calls := calls w ++ cs; heap := heap w |}) →
  wp (wait_loop L client txID timeout r0 lastRound) w Q.
Proof.
  remember (Z.to_nat (r0 + timeout - lastRound)) as n eqn:Hn.
  revert lastRound w Q Hn.
  induction n as [|n IH]; intros lastRound w Q Hn HQ;
    unfold wp; rewrite wait_loop_eq; case_decide; try lia;
    try (specialize (HQ (Raise (Exception (timeout_message txID timeout))) (node w) []);
         rewrite app_nil_r in HQ; destruct w; apply HQ;
         [constructor | intros tx d Hin; inversion Hin]).
  match goal with |- ?Q' (?m w).1 (?m w).2 => change (wp m w Q') end.
  apply wp_bind, wp_call. intros [d|e] n1 _.
  2: { apply (HQ _ _ [_]); [repeat constructor|].
       intros tx d Hin. apply list_elem_of_singleton in Hin. discriminate. }
  apply wp_bind, wp_lift.
  destruct (as_int _) as [c|e] eqn:Hc.
  2: { apply (HQ _ _ [_]); [repeat constructor|].
       intros tx d' Hin [c' [Hc' _]]. apply list_elem_of_singleton in Hin.
       injection Hin as -> ->. rewrite Hc' in Hc. discriminate. }
  destruct (Z.ltb_spec 0 c) as [Hpos|Hneg].
  { apply wp_ret. apply (HQ _ _ [_]); [repeat constructor|].
    intros tx d' Hin _. apply list_elem_of_singleton in Hin.
    injection Hin as -> ->. reflexivity. }
  assert (∀ tx d', CPendingTransactionInfo tx (Ok d') ∈
                     [CPendingTransactionInfo txID (Ok d)] → confirmed d' → False)
    as Hnot.
  { intros tx d' Hin [c' [Hc' Hpos']]. apply list_elem_of_singleton in Hin.
    injection Hin as -> ->. rewrite Hc' in Hc. injection Hc as ->. lia. }
  apply wp_bind, wp_lift.
  destruct (getitem d "pool-error") as [v|e].
  2: { apply (HQ _ _ [_]); [repeat constructor|].
       intros tx d' Hin Hd'. destruct (Hnot tx d' Hin Hd'). }
  destruct (truthy v).
  { apply wp_raise. apply (HQ _ _ [_]); [repeat constructor|].
    intros tx d' Hin Hd'. destruct (Hnot tx d' Hin Hd'). }
  apply wp_bind, wp_call. intros [st|e] n2 _.
  2: { simpl. rewrite <- app_assoc. apply (HQ _ _ [_; _]); [repeat constructor|].
       intros tx d' Hin Hd'. apply elem_of_cons in Hin as [Hin|Hin].
       - destruct (Hnot tx d' ltac:(rewrite Hin; constructor) Hd').
       - apply list_elem_of_singleton in Hin. discriminate. }
  apply IH; [lia|]. intros r nd cs Hcs Hret. simpl.
  rewrite <- !app_assoc. simpl. apply (HQ _ _ (_ :: _ :: cs)).
  - repeat constructor. exact Hcs.
  - intros tx d' Hin Hd'. apply elem_of_cons in Hin as [Hin|Hin].
    + destruct (Hnot tx d' ltac:(rewrite Hin; constructor) Hd').
    + apply elem_of_cons in Hin as [Hin|Hin]; [discriminate|].
      apply (Hret tx d' Hin Hd').
Qed.

Lemma wp_waitForTransaction timeout (w : World Node) Q :
  (∀ r nd cs,
     Forall (λ c, is_wait c = true) cs →
     (∀ tx d, CPendingTransactionInfo tx (Ok d) ∈ cs → confirmed d → r = Ok d) →
     Q r {| node := nd; calls := calls w ++ cs; heap := heap w |}) →
  wp (waitForTransaction L client txID timeout) w Q.
Proof.
  intros HQ. unfold waitForTransaction.
  apply wp_bind, wp_call. intros [st|e] n0 _.
  2: { apply (HQ _ _ [_]); [repeat constructor|].
       intros tx d Hin. apply list_elem_of_singleton in Hin. discriminate. }
  apply wp_bind, wp_lift. destruct (getitem st "last-round") as [v|e].
  2: { apply (HQ _ _ [_]); [repeat constructor|].
       intros tx d Hin. apply list_elem_of_singleton in Hin. discriminate. }
  apply wp_bind, wp_lift. destruct (as_int v) as [r0|e].
  2: { apply (HQ _ _ [_]); [repeat constructor|].
       intros tx d Hin. apply list_elem_of_singleton in Hin. discriminate. }
  apply wp_wait_loop. intros r nd cs Hcs Hret. simpl.
  rewrite <- app_assoc. simpl. apply (HQ _ _ (_ :: cs)).
  - constructor; [reflexivity | exact Hcs].
  - intros tx d Hin Hd. apply elem_of_cons in Hin as [Hin|Hin]; [discriminate|].
    apply (Hret tx d Hin Hd).
Qed.

Lemma only_calls_waitForTransaction timeout :
  only_calls is_wait (waitForTransaction L client txID timeout).
Proof.
  intros w Q HQ. apply wp_waitForTransaction. intros r nd cs Hcs _. apply HQ, Hcs.
Qed.

End Waiter.

(** ** Integer encoding *)

Lemma byte_of_mod (z : Z) : ∃ b, Byte.of_N (Z.to_N (z `mod` 256)) = Some b ∧
                                 Z.of_N (Byte.to_N b) = z `mod` 256.
Proof.
  pose proof (Z.mod_pos_bound z 256 ltac:(lia)) as Hb.
  destruct (Byte.of_N (Z.to_N (z `mod` 256))) as [b|] eqn:E.
  - exists b. split; [reflexivity|].
    apply Byte.to_of_N in E. rewrite E. lia.
  - apply Byte.of_N_None_iff in E. lia.
Qed.

Lemma length_le_bytes (n : nat) (z : Z) : length (le_bytes n z) = n.
Proof.
  revert z. induction n as [|n IH]; intros z; [reflexivity|].
  simpl. destruct (byte_of_mod z) as (b & -> & _). simpl. rewrite IH. reflexivity.
Qed.

Lemma from_bytes_snoc (bs : bytes) (b : byte) :
  from_bytes (bs ++ [b]) = from_bytes bs * 256 + Z.of_N (Byte.to_N b).
Proof. unfold from_bytes. rewrite fold_left_app. reflexivity. Qed.

Lemma from_bytes_le_bytes (n : nat) (z : Z) :
  from_bytes (rev (le_bytes n z)) = z `mod` 2 ^ (8 * Z.of_nat n).
Proof.
  revert z. induction n as [|n IH]; intros z.
  - simpl. rewrite Z.mod_1_r. reflexivity.
  - simpl le_bytes. destruct (byte_of_mod z) as (b & -> & Hb).
    simpl rev. rewrite from_bytes_snoc, IH, Hb.
    replace (8 * Z.of_nat (S n)) with (8 + 8 * Z.of_nat n) by lia.
    rewrite Z.pow_add_r by lia. change (2 ^ 8) with 256.
    rewrite Z.rem_mul_r by lia. lia.
Qed.

(** [to_bytes] gives the big-endian encoding: the right number of bytes,
    and reading them back most significant byte first gives the integer. *)
Lemma to_bytes_big_endian (z : Z) (n : nat) (bs : bytes) :
  to_bytes z n = Ok bs → is_big_endian n z bs.
Proof.
  unfold to_bytes. destruct (Z.ltb_spec z 0); [discriminate|].
  destruct (Z.leb_spec (2 ^ (8 * Z.of_nat n)) z); [discriminate|].
  intros [= <-]. split.
  - rewrite length_rev. apply length_le_bytes.
  - rewrite from_bytes_le_bytes. apply Z.mod_small. lia.
Qed.

(** ** The scan of the global state *)

Section Scan.
Context (L : Library).

Lemma scan_global_state_cons (glob_state : PyVal) (i : nat) (range : list nat) :
  scan_global_state L glob_state (i :: range) =
  (entry <~ index glob_state i ;;
   decoded <~ key_of L entry ;;
   if decide (decoded = pool_token_key) then uint_of entry
   else scan_global_state L glob_state range).
Proof.
  simpl. unfold key_of, uint_of.
  destruct (index glob_state i) as [entry|e]; simpl; [|reflexivity].
  destruct (subscript entry "key") as [key|e]; simpl; [|reflexivity].
  destruct (as_str key) as [k|e]; simpl; [|reflexivity].
  destruct (b64decode L k) as [decoded|e]; simpl; reflexivity.
Qed.

(** The scan stops at the first entry whose key is the pool-token key. *)
Lemma scan_first_match (entries : list PyVal) (i : nat) (entry u : PyVal) :
  entries !! i = Some entry →
  key_of L entry = Ok pool_token_key →
  uint_of entry = Ok u →
  (∀ j e, (j < i)%nat → entries !! j = Some e → other_key L e) →
  ∀ n k, (k ≤ i < k + n)%nat →
    scan_global_state L (VList entries) (seq k n) = Ok u.
Proof.
  intros Hi Hkey Hu Hbefore.
  induction n as [|n IH]; intros k Hk; [lia|].
  simpl seq. rewrite scan_global_state_cons.
  destruct (decide (k = i)) as [->|Hne].
  - cbn [index]. rewrite Hi. cbn [rbind]. rewrite Hkey. cbn [rbind].
    rewrite decide_True by reflexivity. exact Hu.
  - destruct (lookup_lt_is_Some_2 entries k) as [e He].
    { apply lookup_lt_Some in Hi. lia. }
    destruct (Hbefore k e ltac:(lia) He) as (key & Hk' & Hother).
    cbn [index]. rewrite He. cbn [rbind]. rewrite Hk'. cbn [rbind].
    rewrite decide_False by exact Hother.
    apply IH. lia.
Qed.

(** Without such an entry the scan runs to the end and gives [None]. *)
Lemma scan_no_match (entries : list PyVal) :
  (∀ j e, entries !! j = Some e → other_key L e) →
  ∀ n k, (k + n ≤ length entries)%nat →
    scan_global_state L (VList entries) (seq k n) = Ok VNone.
Proof.
  intros Hall. induction n as [|n IH]; intros k Hk; [reflexivity|].
  simpl seq. rewrite scan_global_state_cons.
  destruct (lookup_lt_is_Some_2 entries k) as [e He]; [lia|].
  destruct (Hall k e He) as (key & Hk' & Hother).
  cbn [index]. rewrite He. cbn [rbind]. rewrite Hk'. cbn [rbind].
  rewrite decide_False by exact Hother.
  apply IH. lia.
Qed.

End Scan.

(** ** The lifecycle operations *)

Lemma calls_since_world {Node} (w : World Node) nd cs h :
  calls_since w {| node := nd; calls := calls w ++ cs; heap := h |} = cs.
Proof. apply calls_since_app. reflexivity. Qed.

Lemma calls_since_refl {Node} (w : World Node) : calls_since w w = [].
Proof. apply calls_since_app. rewrite app_nil_r. reflexivity. Qed.

Lemma only_member (P : Call → bool) (cs : list Call) (c : Call) :
  Forall (λ c, P c = true) cs → c ∈ cs → P c = true.
Proof. intros H Hc. rewrite Forall_forall in H. apply H, Hc. Qed.

(** Splits a membership in an explicit list of calls into its cases and
    drops the impossible ones. *)
Ltac member_cases :=
  repeat match goal with
  | H : _ ∈ _ ++ _ |- _ => apply elem_of_app in H as [H|H]
  | H : _ ∈ _ :: _ |- _ => apply elem_of_cons in H as [H|H]
  | H : _ ∈ [] |- _ => apply elem_of_nil in H; contradiction
  | H : ?c ∈ ?cs, F : Forall _ ?cs |- _ =>
      apply (only_member _ _ _ F) in H; discriminate H
  | H : @eq Call _ _ |- _ =>
      first [discriminate H | injection H; clear H; intros; subst]
  | H : @eq (Res _) (Ok _) (Raise _) |- _ => discriminate H
  | H : @eq (Res _) (Raise _) (Ok _) |- _ => discriminate H
  | H : @eq (Res _) (Ok _) (Ok _) |- _ => injection H; clear H; intros; subst
  end.

(** Closes a goal about a run that ended before anything of interest was
    among its calls. *)
Ltac quiet :=
  simpl; intros;
  match goal with
  | H : _ ∈ calls_since _ _ |- _ =>
      simpl in H; rewrite <- ?app_assoc in H;
      first [rewrite calls_since_world in H | rewrite calls_since_refl in H]
  end;
  member_cases.

Ltac wp_lift_step :=
  apply wp_bind, wp_lift;
  match goal with
  | |- match ?r with Ok _ => _ | Raise _ => _ end => destruct r eqn:?
  end.

Tactic Notation "wp_lift_step" "as" ident(x) ident(H) :=
  apply wp_bind, wp_lift;
  match goal with
  | |- match ?r with Ok _ => _ | Raise _ => _ end => destruct r as [x|?e] eqn:H
  end.

Lemma submissions_app (cs1 cs2 : list Call) :
  submissions (cs1 ++ cs2) = submissions cs1 ++ submissions cs2.
Proof. apply List.filter_app. Qed.

Lemma submissions_queries (cs : list Call) :
  Forall (λ c, is_query c = true) cs → submissions cs = [].
Proof.
  induction 1 as [|c cs Hc _ IH]; [reflexivity|].
  unfold submissions, is_query in *. simpl.
  destruct (is_submission c); [discriminate|]. exact IH.
Qed.

Lemma no_submission (cs : list Call) (c : Call) :
  Forall (λ c, is_query c = true) cs → c ∈ cs → is_submission c = true → False.
Proof.
  intros Hcs Hin Hc. apply (only_member _ _ _ Hcs) in Hin.
  unfold is_query in Hin. rewrite Hc in Hin. discriminate.
Qed.

(** A run whose calls are queries around one submission [s]: any
    submission found among the calls is [s], and it is the only one. *)
Lemma single_submission (pre post : list Call) (s c : Call) :
  c ∈ pre ++ [s] ++ post →
  is_submission c = true →
  Forall (λ c, is_query c = true) pre →
  Forall (λ c, is_query c = true) post →
  is_submission s = true →
  c = s ∧ submissions (pre ++ [s] ++ post) = [s].
Proof.
  intros Hin Hc Hpre Hpost Hs. split.
  - apply elem_of_app in Hin as [Hin|Hin];
      [destruct (no_submission _ _ Hpre Hin Hc)|].
    apply elem_of_app in Hin as [Hin|Hin];
      [|destruct (no_submission _ _ Hpost Hin Hc)].
    apply list_elem_of_singleton in Hin. exact Hin.
  - rewrite !submissions_app, (submissions_queries pre Hpre),
      (submissions_queries post Hpost).
    unfold submissions. simpl. rewrite Hs. reflexivity.
Qed.

Lemma wait_is_query (c : Call) : is_wait c = true → is_query c = true.
Proof. destruct c; simpl; intros; first [reflexivity | discriminate]. Qed.

(** Closes a goal about the submissions of a run that has submitted nothing. *)
Ltac nothing_submitted :=
  repeat match goal with Q := _ |- _ => subst Q end;
  simpl; intros;
  match goal with
  | Hin : ?c ∈ calls_since _ _, Hc : is_submission ?c = true |- _ =>
      exfalso;
      simpl in Hin; rewrite <- ?app_assoc in Hin;
      first [rewrite calls_since_world in Hin | rewrite calls_since_refl in Hin];
      revert Hin Hc; apply no_submission; repeat constructor
  end.

(** *** Freshly built transaction objects

    The objects a driver function groups, signs and submits are the ones it
    has just built: they sit at the end of the heap, in the order they were
    built. *)
Section Fresh.
Context {Node : Type}.

Lemma mapM_load_fresh (objs h : list Transaction) (w : World Node) :
  heap w = h ++ objs →
  mapM load (seq (length h) (length objs)) w = (Ok objs, w).
Proof.
  revert h. induction objs as [|t objs IH]; intros h Hh; [reflexivity|].
  simpl. unfold bind at 1. unfold load at 1.
  rewrite Hh, list_lookup_middle by reflexivity.
  unfold bind at 1.
  replace (S (length h)) with (length (h ++ [t])) by (rewrite length_app; simpl; lia).
  rewrite (IH (h ++ [t])) by (rewrite <- app_assoc; exact Hh).
  reflexivity.
Qed.

Lemma mapM_set_group_fresh gid (objs h : list Transaction) (w : World Node) :
  heap w = h ++ objs →
  mapM (set_group gid) (seq (length h) (length objs)) w =
  (Ok (map (λ _, ()) objs),
   {| node := node w; calls := calls w; heap := h ++ map (with_group gid) objs |}).
Proof.
  revert h w. induction objs as [|t objs IH]; intros h w Hh.
  - simpl. unfold ret. rewrite <- Hh. destruct w; reflexivity.
  - simpl. unfold bind at 1. unfold set_group at 1. unfold bind at 1.
    replace (S (length h)) with (length (h ++ [with_group gid t]))
      by (rewrite length_app; simpl; lia).
    rewrite (IH (h ++ [with_group gid t])).
    + simpl. rewrite <- app_assoc. reflexivity.
    + simpl. rewrite Hh.
      replace (length h) with (length h + 0)%nat by lia.
      rewrite alter_app_r. simpl. rewrite <- app_assoc. reflexivity.
Qed.

Lemma assign_group_id_fresh (L : Library) (objs h : list Transaction) (w : World Node) :
  heap w = h ++ objs →
  assign_group_id L (seq (length h) (length objs)) w =
  match calculate_group_id L objs with
  | Ok gid =>
      (Ok (), {| node := node w; calls := calls w;
                 heap := h ++ map (with_group gid) objs |})
  | Raise e => (Raise e, w)
  end.
Proof.
  intros Hh. unfold assign_group_id.
  unfold bind at 1. rewrite (mapM_load_fresh objs h w Hh).
  unfold bind at 1. unfold lift at 1.
  destruct (calculate_group_id L objs) as [gid|e]; [|reflexivity].
  unfold bind at 1. rewrite (mapM_set_group_fresh gid objs h w Hh). reflexivity.
Qed.

Lemma wp_assign_group_id_fresh (L : Library) (objs h : list Transaction)
    (w : World Node) (Q : Res unit → World Node → Prop) :
  heap w = h ++ objs →
  (∀ e, calculate_group_id L objs = Raise e → Q (Raise e) w) →
  (∀ gid, calculate_group_id L objs = Ok gid →
          Q (Ok ()) {| node := node w; calls := calls w;
                       heap := h ++ map (with_group gid) objs |}) →
  wp (assign_group_id L (seq (length h) (length objs))) w Q.
Proof.
  intros Hh He Hg. unfold wp. rewrite (assign_group_id_fresh L objs h w Hh).
  destruct (calculate_group_id L objs) as [gid|e]; simpl; auto.
Qed.

Lemma mapM_wire_fresh key (objs h : list Transaction) (w : World Node) :
  heap w = h ++ objs →
  mapM wire (map (λ r, {| txn_of := r; signature := key |})
                 (seq (length h) (length objs))) w =
  (Ok (map (λ t, {| transaction := t; signed_with := key |}) objs), w).
Proof.
  revert h. induction objs as [|t objs IH]; intros h Hh; [reflexivity|].
  simpl. unfold bind at 1. unfold wire at 1. unfold bind at 1. unfold load at 1.
  simpl. rewrite Hh, list_lookup_middle by reflexivity. simpl.
  unfold bind at 1.
  replace (S (length h)) with (length (h ++ [t])) by (rewrite length_app; simpl; lia).
  rewrite (IH (h ++ [t])) by (rewrite <- app_assoc; exact Hh).
  reflexivity.
Qed.

End Fresh.

Section Lifecycle.
Context (L : Library) {Node : Type} (client : AlgodClient Node).

Lemma only_calls_fullyCompileContract (contract : Expr L) :
  only_calls is_compile (fullyCompileContract L client contract).
Proof.
  unfold fullyCompileContract.
  apply only_calls_bind; [apply only_calls_pure | intros teal].
  apply only_calls_bind; [apply only_calls_call; reflexivity | intros response].
  apply only_calls_bind; [apply only_calls_pure | intros result].
  apply only_calls_bind; [apply only_calls_pure | intros result'].
  apply only_calls_pure.
Qed.

Lemma only_calls_getContracts : only_calls is_compile (getContracts L client).
Proof.
  unfold getContracts.
  apply only_calls_bind; [apply only_calls_fullyCompileContract | intros a].
  apply only_calls_bind; [apply only_calls_fullyCompileContract | intros b].
  apply only_calls_ret.
Qed.

Lemma only_calls_txid_of P (stxn : SignedTransaction) :
  only_calls (Node := Node) P (txid_of L stxn).
Proof.
  unfold txid_of.
  apply only_calls_bind; [apply only_calls_load | intros t].
  apply only_calls_ret.
Qed.

(** What [createAmmApp] does once the transaction is submitted: wait for
    the confirmation and check the application index. *)
Lemma only_calls_create_tail (signedTxn : SignedTransaction) :
  only_calls is_wait
    (txid <- txid_of L signedTxn ;;
     response <- waitForTransaction L client txid default_timeout ;;
     application_index <- lift (getitem response "application-index") ;;
     match application_index with
     | VNone => raise AssertionError
     | _ =>
         i <- lift (as_int application_index) ;;
         if 0 <? i then ret i else raise AssertionError
     end).
Proof.
  apply only_calls_bind; [apply only_calls_txid_of | intros txid].
  apply only_calls_bind; [apply only_calls_waitForTransaction | intros response].
  apply only_calls_bind; [apply only_calls_pure | intros v].
  destruct v; try apply only_calls_raise;
    (apply only_calls_bind; [apply only_calls_pure | intros i]);
    destruct (0 <? i); first [apply only_calls_ret | apply only_calls_raise].
Qed.

(** X20: every transaction [createAmmApp] submits is an application-create
    transaction with exactly five application arguments, in this order: the
    decoded bytes of the creator address, then the 8-byte big-endian
    encodings of [tokenA], [tokenB], [feeBps] and [minIncrement]. *)
Theorem createAmmApp_app_args tokenA tokenB feeBps minIncrement creator private_key
    (w : World Node) stx reply :
  CSendTransaction stx reply ∈
    calls_since w (createAmmApp L client tokenA tokenB feeBps minIncrement
                     creator private_key w).2 →
  ∃ address a b f m approval clear,
    fields (transaction stx) =
      ApplicationCreateTxn creator NoOpOC approval clear
        {| num_uints := 7; num_byte_slices := 1 |}
        {| num_uints := 0; num_byte_slices := 0 |}
        [address; a; b; f; m] ∧
    decode_address L creator = Ok address ∧
    is_big_endian 8 tokenA a ∧
    is_big_endian 8 tokenB b ∧
    is_big_endian 8 feeBps f ∧
    is_big_endian 8 minIncrement m.
Proof.
  revert stx reply.
  match goal with
  | |- ∀ stx reply, _ ∈ calls_since w (?m w).2 → @?P stx =>
      change (wp m w (λ _ w', ∀ stx reply,
                CSendTransaction stx reply ∈ calls_since w w' → P stx))
  end.
  unfold createAmmApp.
  apply wp_bind, only_calls_getContracts.
  intros [[approval clear]|e] n1 cs1 Hcs1; [|quiet].
  wp_lift_step as address Haddress; [|quiet].
  wp_lift_step as a Ha; [|quiet].
  wp_lift_step as b Hb; [|quiet].
  wp_lift_step as f Hf; [|quiet].
  wp_lift_step as m Hm; [|quiet].
  apply wp_bind, wp_call. intros [params|e] n2 _; [|quiet].
  apply wp_bind, wp_new_txn; [quiet|].
  intros _. apply wp_bind, wp_sign; [quiet|].
  intros _. unfold wire. apply wp_bind, wp_bind, wp_load; simpl; [|quiet].
  intros t Ht. rewrite list_lookup_middle in Ht by reflexivity. injection Ht as <-.
  apply wp_ret, wp_bind, wp_call. intros sent n3 _.
  assert (∀ stx reply cs,
    Forall (λ c, is_wait c = true) cs →
    CSendTransaction stx reply ∈
      cs1 ++ [CSuggestedParams (Ok params)] ++
      [CSendTransaction
         {| transaction :=
              {| fields := ApplicationCreateTxn creator NoOpOC approval clear
                             {| num_uints := 7; num_byte_slices := 1 |}
                             {| num_uints := 0; num_byte_slices := 0 |}
                             [address; a; b; f; m];
                 sp := params; group := None |};
            signed_with := private_key |} sent] ++ cs →
    ∃ address a b f m approval clear,
      fields (transaction stx) =
        ApplicationCreateTxn creator NoOpOC approval clear
          {| num_uints := 7; num_byte_slices := 1 |}
          {| num_uints := 0; num_byte_slices := 0 |}
          [address; a; b; f; m] ∧
      decode_address L creator = Ok address ∧
      is_big_endian 8 tokenA a ∧
      is_big_endian 8 tokenB b ∧
      is_big_endian 8 feeBps f ∧
      is_big_endian 8 minIncrement m) as Hsent.
  { intros stx reply cs Hcs Hin. member_cases. simpl.
    exists address, a, b, f, m, approval, clear.
    split; [reflexivity|]. split; [assumption|].
    repeat split; eapply to_bytes_big_endian; eassumption. }
  destruct sent as [txid0|e].
  - apply only_calls_create_tail. intros r nd cs Hcs stx reply. simpl.
    rewrite <- !app_assoc, calls_since_world, <- Haddress. apply Hsent, Hcs.
  - intros stx reply. simpl.
    rewrite <- !app_assoc, calls_since_world, <- Haddress.
    intros Hin. apply (Hsent stx reply []); [constructor|].
    rewrite app_nil_r. exact Hin.
Qed.

Lemma create_tail_pure (response : dict) (w : World Node) :
  (application_index <- lift (getitem response "application-index") ;;
   match application_index with
   | VNone => raise AssertionError
   | _ =>
       i <- lift (as_int application_index) ;;
       if 0 <? i then ret i else raise AssertionError
   end) w =
  (check_application_index response, w).
Proof.
  unfold check_application_index, bind, lift, rbind.
  destruct (getitem response "application-index") as [v|e]; [|reflexivity].
  destruct v; simpl; try reflexivity.
  destruct (0 <? z); reflexivity.
Qed.

(** The result of [createAmmApp] is read off the confirmation: when a poll
    of the run is answered with a confirmation [response], the result is
    [check_application_index response]. *)
Lemma createAmmApp_result tokenA tokenB feeBps minIncrement creator private_key
    (w : World Node) txid response :
  CPendingTransactionInfo txid (Ok response) ∈
    calls_since w (createAmmApp L client tokenA tokenB feeBps minIncrement
                     creator private_key w).2 →
  confirmed response →
  (createAmmApp L client tokenA tokenB feeBps minIncrement creator private_key w).1 =
    check_application_index response.
Proof.
  change (wp (createAmmApp L client tokenA tokenB feeBps minIncrement
                creator private_key) w
    (λ r w', CPendingTransactionInfo txid (Ok response) ∈ calls_since w w' →
             confirmed response → r = check_application_index response)).
  unfold createAmmApp.
  apply wp_bind, only_calls_getContracts.
  intros [[approval clear]|e] n1 cs1 Hcs1; [|quiet].
  do 5 (wp_lift_step; [|quiet]).
  apply wp_bind, wp_call. intros [params|e] n2 _; [|quiet].
  apply wp_bind, wp_new_txn; [quiet|]. intros _.
  apply wp_bind, wp_sign; [quiet|]. intros _.
  apply wp_bind, (only_calls_wire is_compile).
  intros [stx|e] n3 cs3 Hcs3; [|quiet].
  apply wp_bind, wp_call. intros [txid0|e] n4 _; [|quiet].
  apply wp_bind, (only_calls_txid_of is_compile).
  intros [txid1|e] n5 cs5 Hcs5; [|quiet].
  apply wp_bind, wp_waitForTransaction. intros [d|e] n6 cs6 Hcs6 Hret.
  - eapply wp_eq; [apply create_tail_pure|].
    simpl. rewrite <- !app_assoc, calls_since_world. intros Hin Hconf.
    member_cases. specialize (Hret _ _ Hin Hconf). injection Hret as ->.
    reflexivity.
  - simpl. rewrite <- !app_assoc, calls_since_world. intros Hin Hconf.
    member_cases. specialize (Hret _ _ Hin Hconf). discriminate.
Qed.

(** What the assertion does with an application index that is present in
    the confirmation: a positive one is returned; [None] or a non-positive
    one fails the assertion. *)
Lemma createAmmApp_application_index tokenA tokenB feeBps minIncrement creator
    private_key (w : World Node) txid response :
  CPendingTransactionInfo txid (Ok response) ∈
    calls_since w (createAmmApp L client tokenA tokenB feeBps minIncrement
                     creator private_key w).2 →
  confirmed response →
  (∀ i, response !! "application-index" = Some (VInt i) → 0 < i →
        (createAmmApp L client tokenA tokenB feeBps minIncrement
           creator private_key w).1 = Ok i) ∧
  (∀ i, response !! "application-index" = Some (VInt i) → i ≤ 0 →
        (createAmmApp L client tokenA tokenB feeBps minIncrement
           creator private_key w).1 = Raise AssertionError) ∧
  (response !! "application-index" = Some VNone →
        (createAmmApp L client tokenA tokenB feeBps minIncrement
           creator private_key w).1 = Raise AssertionError).
Proof.
  intros Hin Hconf. rewrite (createAmmApp_result _ _ _ _ _ _ _ _ _ Hin Hconf).
  unfold check_application_index, getitem.
  split; [|split].
  - intros i -> Hi. simpl. destruct (Z.ltb_spec 0 i); [reflexivity | lia].
  - intros i -> Hi. simpl. destruct (Z.ltb_spec 0 i); [lia | reflexivity].
  - intros ->. reflexivity.
Qed.

(** A confirmation without the key "application-index" makes the subscript
    in the assertion raise [KeyError]: the assertion itself is not reached. *)
Lemma createAmmApp_missing_index tokenA tokenB feeBps minIncrement creator
    private_key (w : World Node) txid response :
  CPendingTransactionInfo txid (Ok response) ∈
    calls_since w (createAmmApp L client tokenA tokenB feeBps minIncrement
                     creator private_key w).2 →
  confirmed response →
  response !! "application-index" = None →
  (createAmmApp L client tokenA tokenB feeBps minIncrement creator private_key w).1 =
    Raise (KeyError "application-index").
Proof.
  intros Hin Hconf Hnone. rewrite (createAmmApp_result _ _ _ _ _ _ _ _ _ Hin Hconf).
  unfold check_application_index, getitem. rewrite Hnone. reflexivity.
Qed.

(** What [setupAmmApp] does once the group is submitted. *)
Lemma only_calls_setup_tail appID (signedFundAppTxn : SignedTransaction) :
  only_calls is_query
    (txid <- txid_of L signedFundAppTxn ;;
     waitForTransaction L client txid default_timeout ;;
     info <- call (CApplicationInfo appID) (application_info client appID) ;;
     params <- lift (getitem info "params") ;;
     glob_state <- lift (subscript params "global-state") ;;
     n <- lift (py_len glob_state) ;;
     lift (scan_global_state L glob_state (seq 0 n))).
Proof.
  apply only_calls_bind; [apply only_calls_txid_of | intros txid].
  apply only_calls_bind;
    [ apply (only_calls_mono is_wait);
      [exact wait_is_query | apply only_calls_waitForTransaction]
    | intros _ ].
  apply only_calls_bind; [apply only_calls_call; reflexivity | intros info].
  repeat (apply only_calls_bind; [apply only_calls_pure | intros ?]).
  apply only_calls_pure.
Qed.

(** X21: whatever [setupAmmApp] submits is one atomic group of exactly two
    transactions, a payment of 403,000 from the funder to the application
    address followed by the "setup" application call, both carrying the
    same group identifier; it is the only submission of the run; and
    403,000 is the minimum-balance requirement 100,000 + 3 * 100,000 plus
    3 * 1,000. *)
Theorem setupAmmApp_group appID tokenA tokenB funder private_key (w : World Node) c :
  c ∈ calls_since w (setupAmmApp L client appID tokenA tokenB funder private_key w).2 →
  is_submission c = true →
  (∃ appAddr params gid reply,
     get_application_address L appID = Ok appAddr ∧
     c = CSendTransactions
           [ {| transaction :=
                  {| fields := PaymentTxn funder appAddr 403000;
                     sp := params; group := Some gid |};
                signed_with := private_key |};
             {| transaction :=
                  {| fields := ApplicationCallTxn funder appID NoOpOC
                                 [String.list_byte_of_string "setup"] [tokenA; tokenB];
                     sp := params; group := Some gid |};
                signed_with := private_key |} ]
           reply) ∧
  submissions (calls_since w (setupAmmApp L client appID tokenA tokenB
                                funder private_key w).2) = [c] ∧
  MIN_BALANCE_REQUIREMENT = 100000 + 3 * 100000 ∧
  403000 = MIN_BALANCE_REQUIREMENT + 3 * 1000.
Proof.
  revert c.
  pose (Q := λ (_ : Res PyVal) (w' : World Node),
    ∀ c, c ∈ calls_since w w' → is_submission c = true →
      (∃ appAddr params gid reply,
         get_application_address L appID = Ok appAddr ∧
         c = CSendTransactions
               [ {| transaction :=
                      {| fields := PaymentTxn funder appAddr 403000;
                         sp := params; group := Some gid |};
                    signed_with := private_key |};
                 {| transaction :=
                      {| fields := ApplicationCallTxn funder appID NoOpOC
                                     [String.list_byte_of_string "setup"] [tokenA; tokenB];
                         sp := params; group := Some gid |};
                    signed_with := private_key |} ]
               reply) ∧
      submissions (calls_since w w') = [c] ∧
      MIN_BALANCE_REQUIREMENT = 100000 + 3 * 100000 ∧
      403000 = MIN_BALANCE_REQUIREMENT + 3 * 1000).
  change (wp (setupAmmApp L client appID tokenA tokenB funder private_key) w Q).
  unfold setupAmmApp.
  wp_lift_step as appAddr Happ; [|nothing_submitted].
  apply wp_bind, wp_call. intros [params|e] n1 _; [|nothing_submitted].
  apply wp_bind, wp_new_txn; [nothing_submitted|]. intros _.
  apply wp_bind, wp_new_txn; [nothing_submitted|]. intros _.
  simpl. rewrite length_app, Nat.add_1_r, <- app_assoc. simpl.
  apply wp_bind; eapply (wp_assign_group_id_fresh L [_; _] (heap w));
    [reflexivity | nothing_submitted | intros gid _].
  apply wp_bind, wp_sign; [nothing_submitted|]. intros _.
  apply wp_bind, wp_sign; [nothing_submitted|]. intros _.
  apply wp_bind.
  eapply wp_eq; [eapply (mapM_wire_fresh private_key [_; _] (heap w)); reflexivity|].
  apply wp_bind, wp_call. intros sent n2 _.
  assert (∀ r nd cs h, Forall (λ c, is_query c = true) cs →
    Q r {| node := nd;
           calls := ((calls w ++ [CSuggestedParams (Ok params)]) ++
                     [CSendTransactions
                        (map (λ t, {| transaction := t; signed_with := private_key |})
                             (map (with_group gid)
                                [ {| fields := PaymentTxn funder appAddr
                                       (MIN_BALANCE_REQUIREMENT + 1000 * 3);
                                     sp := params; group := None |};
                                  {| fields := ApplicationCallTxn funder appID NoOpOC
                                       [String.list_byte_of_string "setup"]
                                       [tokenA; tokenB];
                                     sp := params; group := None |} ]))
                        sent]) ++ cs;
           heap := h |}) as Hleaf.
  2: { destruct sent as [txid0|e].
       - apply only_calls_setup_tail. intros r nd cs Hcs. apply Hleaf, Hcs.
       - specialize (Hleaf (Raise e) n2 []). rewrite app_nil_r in Hleaf.
         apply Hleaf. constructor. }
  intros r nd cs h Hcs c Hin Hc.
  rewrite <- !app_assoc, calls_since_world in *.
  destruct (single_submission _ _ _ _ Hin Hc) as [-> Hsub];
    [repeat constructor | exact Hcs | reflexivity |].
  split; [|split; [exact Hsub | split; reflexivity]].
  exists appAddr, params, gid, sent. split; reflexivity.
Qed.

(** What [supply] and [optInToPoolToken] do once they have submitted. *)
Lemma only_calls_wait_tail (signedTxn : SignedTransaction) :
  only_calls is_query
    (txid <- txid_of L signedTxn ;;
     waitForTransaction L client txid default_timeout ;;
     ret ()).
Proof.
  apply only_calls_bind; [apply only_calls_txid_of | intros txid].
  apply only_calls_bind;
    [ apply (only_calls_mono is_wait);
      [exact wait_is_query | apply only_calls_waitForTransaction]
    | intros _ ].
  apply only_calls_ret.
Qed.

(** X22: whatever [supply] submits is one atomic group of exactly four
    transactions in this order: the fee payment, the transfer of token A,
    the transfer of token B, and the "supply" application call that names
    [tokenA], [tokenB] and [poolToken]; all four carry the same group
    identifier, and the group goes out in the only submission of the run. *)
Theorem supply_group appID qA qB supplier private_key tokenA tokenB poolToken
    (w : World Node) c :
  c ∈ calls_since w (supply L client appID qA qB supplier private_key
                       tokenA tokenB poolToken w).2 →
  is_submission c = true →
  (∃ appAddr params gid reply,
     get_application_address L appID = Ok appAddr ∧
     c = CSendTransactions
           [ {| transaction :=
                  {| fields := PaymentTxn supplier appAddr 2000;
                     sp := params; group := Some gid |};
                signed_with := private_key |};
             {| transaction :=
                  {| fields := AssetTransferTxn supplier appAddr qA tokenA;
                     sp := params; group := Some gid |};
                signed_with := private_key |};
             {| transaction :=
                  {| fields := AssetTransferTxn supplier appAddr qB tokenB;
                     sp := params; group := Some gid |};
                signed_with := private_key |};
             {| transaction :=
                  {| fields := ApplicationCallTxn supplier appID NoOpOC
                                 [String.list_byte_of_string "supply"]
                                 [tokenA; tokenB; poolToken];
                     sp := params; group := Some gid |};
                signed_with := private_key |} ]
           reply) ∧
  submissions (calls_since w (supply L client appID qA qB supplier private_key
                                tokenA tokenB poolToken w).2) = [c].
Proof.
  revert c.
  pose (Q := λ (_ : Res unit) (w' : World Node),
    ∀ c, c ∈ calls_since w w' → is_submission c = true →
      (∃ appAddr params gid reply,
         get_application_address L appID = Ok appAddr ∧
         c = CSendTransactions
               [ {| transaction :=
                      {| fields := PaymentTxn supplier appAddr 2000;
                         sp := params; group := Some gid |};
                    signed_with := private_key |};
                 {| transaction :=
                      {| fields := AssetTransferTxn supplier appAddr qA tokenA;
                         sp := params; group := Some gid |};
                    signed_with := private_key |};
                 {| transaction :=
                      {| fields := AssetTransferTxn supplier appAddr qB tokenB;
                         sp := params; group := Some gid |};
                    signed_with := private_key |};
                 {| transaction :=
                      {| fields := ApplicationCallTxn supplier appID NoOpOC
                                     [String.list_byte_of_string "supply"]
                                     [tokenA; tokenB; poolToken];
                         sp := params; group := Some gid |};
                    signed_with := private_key |} ]
               reply) ∧
      submissions (calls_since w w') = [c]).
  change (wp (supply L client appID qA qB supplier private_key
                tokenA tokenB poolToken) w Q).
  unfold supply.
  wp_lift_step as appAddr Happ; [|nothing_submitted].
  apply wp_bind, wp_call. intros [params|e] n1 _; [|nothing_submitted].
  do 4 (apply wp_bind, wp_new_txn; [nothing_submitted|]; intros _).
  simpl. rewrite !length_app, !Nat.add_1_r, <- !app_assoc. simpl.
  apply wp_bind; eapply (wp_assign_group_id_fresh L [_; _; _; _] (heap w));
    [reflexivity | nothing_submitted | intros gid _].
  do 4 (apply wp_bind, wp_sign; [nothing_submitted|]; intros _).
  apply wp_bind.
  eapply wp_eq;
    [eapply (mapM_wire_fresh private_key [_; _; _; _] (heap w)); reflexivity|].
  apply wp_bind, wp_call. intros sent n2 _.
  assert (∀ r nd cs h, Forall (λ c, is_query c = true) cs →
    Q r {| node := nd;
           calls := ((calls w ++ [CSuggestedParams (Ok params)]) ++
                     [CSendTransactions
                        (map (λ t, {| transaction := t; signed_with := private_key |})
                             (map (with_group gid)
                                [ {| fields := PaymentTxn supplier appAddr 2000;
                                     sp := params; group := None |};
                                  {| fields := AssetTransferTxn supplier appAddr qA tokenA;
                                     sp := params; group := None |};
                                  {| fields := AssetTransferTxn supplier appAddr qB tokenB;
                                     sp := params; group := None |};
                                  {| fields := ApplicationCallTxn supplier appID NoOpOC
                                       [String.list_byte_of_string "supply"]
                                       [tokenA; tokenB; poolToken];
                                     sp := params; group := None |} ]))
                        sent]) ++ cs;
           heap := h |}) as Hleaf.
  2: { destruct sent as [txid0|e].
       - apply only_calls_wait_tail. intros r nd cs Hcs. apply Hleaf, Hcs.
       - specialize (Hleaf (Raise e) n2 []). rewrite app_nil_r in Hleaf.
         apply Hleaf. constructor. }
  intros r nd cs h Hcs c Hin Hc.
  rewrite <- !app_assoc, calls_since_world in *.
  destruct (single_submission _ _ _ _ Hin Hc) as [-> Hsub];
    [repeat constructor | exact Hcs | reflexivity |].
  split; [|exact Hsub].
  exists appAddr, params, gid, sent. split; reflexivity.
Qed.

Lemma setup_tail_pure (info : dict) (w : World Node) :
  (params <- lift (getitem info "params") ;;
   glob_state <- lift (subscript params "global-state") ;;
   n <- lift (py_len glob_state) ;;
   lift (scan_global_state L glob_state (seq 0 n))) w =
  (read_pool_token L info, w).
Proof.
  unfold read_pool_token, bind, lift, rbind.
  destruct (getitem info "params") as [params|e]; [|reflexivity].
  destruct (subscript params "global-state") as [glob_state|e]; [|reflexivity].
  destruct (py_len glob_state) as [n|e]; reflexivity.
Qed.

(** The result of [setupAmmApp] is read off the application info: when the
    run gets as far as fetching it, and the node answers [info], the
    result is [read_pool_token info]. *)
Lemma setupAmmApp_result appID tokenA tokenB funder private_key (w : World Node) info :
  CApplicationInfo appID (Ok info) ∈
    calls_since w (setupAmmApp L client appID tokenA tokenB funder private_key w).2 →
  (setupAmmApp L client appID tokenA tokenB funder private_key w).1 =
    read_pool_token L info.
Proof.
  change (wp (setupAmmApp L client appID tokenA tokenB funder private_key) w
    (λ r w', CApplicationInfo appID (Ok info) ∈ calls_since w w' →
             r = read_pool_token L info)).
  unfold setupAmmApp.
  wp_lift_step as appAddr Happ; [|quiet].
  apply wp_bind, wp_call. intros [params|e] n1 _; [|quiet].
  apply wp_bind, wp_new_txn; [quiet|]. intros _.
  apply wp_bind, wp_new_txn; [quiet|]. intros _.
  simpl. rewrite length_app, Nat.add_1_r, <- app_assoc. simpl.
  apply wp_bind; eapply (wp_assign_group_id_fresh L [_; _] (heap w));
    [reflexivity | quiet | intros gid _].
  apply wp_bind, wp_sign; [quiet|]. intros _.
  apply wp_bind, wp_sign; [quiet|]. intros _.
  apply wp_bind.
  eapply wp_eq; [eapply (mapM_wire_fresh private_key [_; _] (heap w)); reflexivity|].
  apply wp_bind, wp_call. intros [txid0|e] n2 _; [|quiet].
  apply wp_bind, (only_calls_txid_of is_wait). intros [txid|e] n3 cs3 Hcs3; [|quiet].
  apply wp_bind, only_calls_waitForTransaction.
  intros [response|e] n4 cs4 Hcs4; [|quiet].
  apply wp_bind, wp_call. intros [info0|e] n5 _; [|quiet].
  eapply wp_eq; [apply setup_tail_pure|].
  simpl. rewrite <- !app_assoc, calls_since_world. intros Hin.
  member_cases. reflexivity.
Qed.

(** C8: when the node, asked for the application info after the setup
    group is confirmed, answers with a global-state list whose first entry
    with the base64-decoded key "pool_token_key" is [entry] (the entries
    before it have other keys), [setupAmmApp] returns the uint value of
    [entry]. *)
Theorem setupAmmApp_pool_token appID tokenA tokenB funder private_key (w : World Node)
    info params entries (i : nat) entry u :
  CApplicationInfo appID (Ok info) ∈
    calls_since w (setupAmmApp L client appID tokenA tokenB funder private_key w).2 →
  info !! "params" = Some (VDict params) →
  params !! "global-state" = Some (VList entries) →
  entries !! i = Some entry →
  key_of L entry = Ok (String.list_byte_of_string "pool_token_key") →
  (∀ j e, (j < i)%nat → entries !! j = Some e → other_key L e) →
  uint_of entry = Ok u →
  (setupAmmApp L client appID tokenA tokenB funder private_key w).1 = Ok u.
Proof.
  intros Hin Hparams Hgs Hi Hkey Hbefore Hu.
  rewrite (setupAmmApp_result _ _ _ _ _ _ _ Hin).
  unfold read_pool_token, getitem. rewrite Hparams. cbn [rbind subscript].
  unfold getitem. rewrite Hgs. cbn [rbind py_len].
  apply (scan_first_match L entries i entry u Hi Hkey Hu Hbefore).
  apply lookup_lt_Some in Hi. lia.
Qed.

(** C9: when no entry of the fetched global-state list has the key
    "pool_token_key" (every entry has some other base64-decodable key),
    [setupAmmApp] does not raise: it returns [None]. *)
Theorem setupAmmApp_no_pool_token appID tokenA tokenB funder private_key (w : World Node)
    info params entries :
  CApplicationInfo appID (Ok info) ∈
    calls_since w (setupAmmApp L client appID tokenA tokenB funder private_key w).2 →
  info !! "params" = Some (VDict params) →
  params !! "global-state" = Some (VList entries) →
  (∀ j e, entries !! j = Some e → other_key L e) →
  (setupAmmApp L client appID tokenA tokenB funder private_key w).1 = Ok VNone.
Proof.
  intros Hin Hparams Hgs Hall.
  rewrite (setupAmmApp_result _ _ _ _ _ _ _ Hin).
  unfold read_pool_token, getitem. rewrite Hparams. cbn [rbind subscript].
  unfold getitem. rewrite Hgs. cbn [rbind py_len].
  apply (scan_no_match L entries Hall). lia.
Qed.

End Lifecycle.


(** ** Runs against the demo node *)

Lemma waitForTransaction_times_out_witness :
  ∃ w',
    waitForTransaction demo_library (demo_client (λ _, answer_pending) ∅)
      "TXID" default_timeout demo_world =
      (Raise (Exception "Transaction TXID not confirmed after 10 rounds"), w') ∧
    polls (calls_since demo_world w') = 10%nat.
Proof.
  apply (waitForTransaction_times_out demo_library
           (demo_client (λ _, answer_pending) ∅) "TXID" 10 demo_world
           {[ "last-round" := VInt 100 ]} 0%nat 100).
  - reflexivity.
  - reflexivity.
  - intros k _. split.
    + exists answer_pending. split; [reflexivity|]. split; reflexivity.
    + eexists. reflexivity.
Defined.

Lemma waitForTransaction_rejected_witness :
  waitForTransaction demo_library (demo_client (λ _, answer_rejected) ∅)
    "TXID" default_timeout demo_world =
    (Raise (Exception "Pool error: overspend"),
     {| node := 1%nat;
        calls := [CStatus (Ok {[ "last-round" := VInt 100 ]});
                  CPendingTransactionInfo "TXID" (Ok answer_rejected)];
        heap := [] |}) ∧
  polls (calls_since demo_world
           (waitForTransaction demo_library (demo_client (λ _, answer_rejected) ∅)
              "TXID" default_timeout demo_world).2) = 1%nat.
Proof.
  apply (waitForTransaction_rejected demo_library
           (demo_client (λ _, answer_rejected) ∅) "TXID" 10 demo_world
           {[ "last-round" := VInt 100 ]} 0%nat 100 answer_rejected 1%nat "overspend").
  - lia.
  - reflexivity.
  - reflexivity.
  - reflexivity.
  - reflexivity.
  - reflexivity.
  - discriminate.
Defined.

Lemma waitForTransaction_confirmed_witness :
  ∃ w',
    waitForTransaction demo_library (demo_client answers_third ∅)
      "TXID" default_timeout demo_world = (Ok answer_confirmed, w') ∧
    polls (calls_since demo_world w') = 3%nat.
Proof.
  apply (waitForTransaction_confirmed demo_library
           (demo_client answers_third ∅) "TXID" 10 demo_world
           {[ "last-round" := VInt 100 ]} 0%nat 100 3 answer_confirmed 103).
  - lia.
  - lia.
  - reflexivity.
  - reflexivity.
  - intros k Hk. destruct k as [|[|k]]; [| |simpl in Hk; lia].
    + split; [exists answer_pending; split; [reflexivity | split; reflexivity]
             | eexists; reflexivity].
    + split; [exists answer_pending; split; [reflexivity | split; reflexivity]
             | eexists; reflexivity].
  - reflexivity.
  - reflexivity.
  - lia.
Defined.

Lemma waitForTransaction_no_budget_witness :
  polls (calls_since demo_world
           (waitForTransaction demo_library (demo_client (λ _, answer_confirmed) ∅)
              "TXID" 0 demo_world).2) = 0%nat ∧
  ∀ st n0 r0,
    status (demo_client (λ _, answer_confirmed) ∅) (node demo_world) = (Ok st, n0) →
    st !! "last-round" = Some (VInt r0) →
    waitForTransaction demo_library (demo_client (λ _, answer_confirmed) ∅)
      "TXID" 0 demo_world =
      (Raise (Exception ("Transaction " +:+ "TXID" +:+ " not confirmed after "
                           +:+ pretty 0 +:+ " rounds")),
       {| node := n0; calls := calls demo_world ++ [CStatus (Ok st)];
          heap := heap demo_world |}).
Proof.
  apply (waitForTransaction_no_budget demo_library
           (demo_client (λ _, answer_confirmed) ∅) "TXID" 0 demo_world).
  lia.
Defined.

Lemma createAmmApp_app_args_witness :
  ∃ address a b f m approval clear,
    fields (transaction demo_create_stx) =
      ApplicationCreateTxn "CREATOR" NoOpOC approval clear
        {| num_uints := 7; num_byte_slices := 1 |}
        {| num_uints := 0; num_byte_slices := 0 |}
        [address; a; b; f; m] ∧
    decode_address demo_library "CREATOR" = Ok address ∧
    is_big_endian 8 1 a ∧
    is_big_endian 8 2 b ∧
    is_big_endian 8 30 f ∧
    is_big_endian 8 1 m.
Proof.
  apply (createAmmApp_app_args demo_library
           (demo_client (λ _, answer_created (VInt 77)) ∅)
           1 2 30 1 "CREATOR" "KEY" demo_world demo_create_stx (Ok "TXID")).
  vm_compute. repeat constructor.
Defined.

Lemma setupAmmApp_group_witness :
  (∃ appAddr params gid reply,
     get_application_address demo_library 77 = Ok appAddr ∧
     demo_setup_group =
       CSendTransactions
         [ {| transaction :=
                {| fields := PaymentTxn "FUNDER" appAddr 403000;
                   sp := params; group := Some gid |};
              signed_with := "KEY" |};
           {| transaction :=
                {| fields := ApplicationCallTxn "FUNDER" 77 NoOpOC
                               [String.list_byte_of_string "setup"] [1; 2];
                   sp := params; group := Some gid |};
              signed_with := "KEY" |} ]
         reply) ∧
  submissions
    (calls_since demo_world
       (setupAmmApp demo_library
          (demo_client answers_third (demo_info entries_with_pool_token))
          77 1 2 "FUNDER" "KEY" demo_world).2) = [demo_setup_group] ∧
  MIN_BALANCE_REQUIREMENT = 100000 + 3 * 100000 ∧
  403000 = MIN_BALANCE_REQUIREMENT + 3 * 1000.
Proof.
  apply (setupAmmApp_group demo_library
           (demo_client answers_third (demo_info entries_with_pool_token))
           77 1 2 "FUNDER" "KEY" demo_world demo_setup_group).
  - vm_compute. repeat constructor.
  - reflexivity.
Defined.

Lemma supply_group_witness :
  (∃ appAddr params gid reply,
     get_application_address demo_library 77 = Ok appAddr ∧
     demo_supply_group =
       CSendTransactions
         [ {| transaction :=
                {| fields := PaymentTxn "SUPPLIER" appAddr 2000;
                   sp := params; group := Some gid |};
              signed_with := "KEY" |};
           {| transaction :=
                {| fields := AssetTransferTxn "SUPPLIER" appAddr 500 1;
                   sp := params; group := Some gid |};
              signed_with := "KEY" |};
           {| transaction :=
                {| fields := AssetTransferTxn "SUPPLIER" appAddr 800 2;
                   sp := params; group := Some gid |};
              signed_with := "KEY" |};
           {| transaction :=
                {| fields := ApplicationCallTxn "SUPPLIER" 77 NoOpOC
                               [String.list_byte_of_string "supply"] [1; 2; 3];
                   sp := params; group := Some gid |};
              signed_with := "KEY" |} ]
         reply) ∧
  submissions
    (calls_since demo_world
       (supply demo_library (demo_client answers_third ∅)
          77 500 800 "SUPPLIER" "KEY" 1 2 3 demo_world).2) = [demo_supply_group].
Proof.
  apply (supply_group demo_library (demo_client answers_third ∅)
           77 500 800 "SUPPLIER" "KEY" 1 2 3 demo_world demo_supply_group).
  - vm_compute. repeat constructor.
  - reflexivity.
Defined.

Lemma setupAmmApp_pool_token_witness :
  (setupAmmApp demo_library
     (demo_client answers_third (demo_info entries_with_pool_token))
     77 1 2 "FUNDER" "KEY" demo_world).1 = Ok (VInt 4242).
Proof.
  apply (setupAmmApp_pool_token demo_library
           (demo_client answers_third (demo_info entries_with_pool_token))
           77 1 2 "FUNDER" "KEY" demo_world
           (demo_info entries_with_pool_token)
           {[ "creator" := VStr "CREATOR";
              "global-state" := VList entries_with_pool_token ]}
           entries_with_pool_token 1
           (VDict {[ "key" := VStr "cG9vbF90b2tlbl9rZXk="; "value" := teal_value 4242 ]})
           (VInt 4242)).
  - vm_compute. repeat constructor.
  - reflexivity.
  - reflexivity.
  - reflexivity.
  - reflexivity.
  - intros j e Hj He. destruct j as [|j]; [|lia].
    injection He as <-.
    exists (String.list_byte_of_string "token_a_key"). split; [reflexivity | discriminate].
  - reflexivity.
Defined.

Lemma setupAmmApp_no_pool_token_witness :
  (setupAmmApp demo_library
     (demo_client answers_third (demo_info entries_without_pool_token))
     77 1 2 "FUNDER" "KEY" demo_world).1 = Ok VNone.
Proof.
  apply (setupAmmApp_no_pool_token demo_library
           (demo_client answers_third (demo_info entries_without_pool_token))
           77 1 2 "FUNDER" "KEY" demo_world
           (demo_info entries_without_pool_token)
           {[ "creator" := VStr "CREATOR";
              "global-state" := VList entries_without_pool_token ]}
           entries_without_pool_token).
  - vm_compute. repeat constructor.
  - reflexivity.
  - reflexivity.
  - intros j e He. destruct j as [|[|j]].
    + injection He as <-.
      exists (String.list_byte_of_string "token_a_key").
      split; [reflexivity | discriminate].
    + injection He as <-.
      exists (String.list_byte_of_string "token_b_key").
      split; [reflexivity | discriminate].
    + discriminate He.
Defined.

(** C4: the node confirms the create transaction with a response that has
    no "application-index" key.  The subscript [response["application-index"]]
    inside the [assert] raises [KeyError] before the assertion is decided,
    so [createAmmApp] does not fail with an assertion failure (which is what
    the same run does when the key is present with the value [None]). *)
Theorem createAmmApp_absent_index_KeyError :
  (createAmmApp demo_library (demo_client (λ _, answer_confirmed) ∅)
     1 2 30 1 "CREATOR" "KEY" demo_world).1 = Raise (KeyError "application-index") ∧
  (createAmmApp demo_library (demo_client (λ _, answer_created VNone) ∅)
     1 2 30 1 "CREATOR" "KEY" demo_world).1 = Raise AssertionError.
Proof.
  split.
  - apply (createAmmApp_missing_index demo_library
             (demo_client (λ _, answer_confirmed) ∅)
             1 2 30 1 "CREATOR" "KEY" demo_world "TXID" answer_confirmed).
    + vm_compute. repeat constructor.
    + exists 103. split; [reflexivity | lia].
    + reflexivity.
  - vm_compute. reflexivity.
Qed.

(** * Further properties of the driver *)

(** ** More about the confirmation waiter *)

Lemma polls_cons (c : Call) (cs : list Call) :
  polls (c :: cs) = ((if is_poll c then 1 else 0) + polls cs)%nat.
Proof. unfold polls. simpl. destruct (is_poll c); reflexivity. Qed.

Section WaiterMore.
Context (L : Library) {Node : Type} (client : AlgodClient Node) (txID : string).

(** The loop, whatever the node answers: the shape of its calls, the bound
    on its polls, and what a returned result is. *)
Lemma wp_wait_loop_trace timeout r0 lastRound (w : World Node) Q :
  (∀ r nd cs,
     wait_trace txID lastRound cs →
     (polls cs ≤ Z.to_nat (r0 + timeout - lastRound))%nat →
     (∀ d, r = Ok d →
           last cs = Some (CPendingTransactionInfo txID (Ok d)) ∧ confirmed d) →
     Q r {| node := nd; calls := calls w ++ cs; heap := heap w |}) →
  wp (wait_loop L client txID timeout r0 lastRound) w Q.
Proof.
  remember (Z.to_nat (r0 + timeout - lastRound)) as n eqn:Hn.
  revert lastRound w Q Hn.
  induction n as [|n IH]; intros lastRound w Q Hn HQ;
    unfold wp; rewrite wait_loop_eq; case_decide; try lia;
    try (specialize (HQ (Raise (Exception (timeout_message txID timeout))) (node w) []);
         rewrite app_nil_r in HQ; destruct w; apply HQ;
         [constructor | unfold polls; simpl; lia | discriminate]).
  match goal with |- ?Q' (?m w).1 (?m w).2 => change (wp m w Q') end.
  assert (∀ reply, polls [CPendingTransactionInfo txID reply] ≤ S n)%nat as Hone
    by (intros; unfold polls; simpl; lia).
  apply wp_bind, wp_call. intros [d|e] n1 _.
  2: { apply (HQ _ _ [_]); [constructor | apply Hone | discriminate]. }
  apply wp_bind, wp_lift.
  destruct (as_int _) as [c|e] eqn:Hc.
  2: { apply (HQ _ _ [_]); [constructor | apply Hone | discriminate]. }
  destruct (Z.ltb_spec 0 c) as [Hpos|Hneg].
  { apply wp_ret. apply (HQ _ _ [_]); [constructor | apply Hone |].
    intros d' [= <-]. split; [reflexivity|].
    exists c. split; [|exact Hpos].
    unfold as_int in Hc. destruct (get d "confirmed-round" (VInt 0)); congruence. }
  apply wp_bind, wp_lift.
  destruct (getitem d "pool-error") as [v|e].
  2: { apply (HQ _ _ [_]); [constructor | apply Hone | discriminate]. }
  destruct (truthy v).
  { apply wp_raise. apply (HQ _ _ [_]); [constructor | apply Hone | discriminate]. }
  apply wp_bind, wp_call. intros [st|e] n2 _.
  2: { simpl. rewrite <- app_assoc. apply (HQ _ _ [_; _]);
         [repeat constructor | unfold polls; simpl; lia | discriminate]. }
  apply IH; [lia|]. intros r nd cs Htrace Hpolls Hret. simpl.
  rewrite <- !app_assoc. simpl. apply (HQ _ _ (_ :: _ :: cs)).
  - constructor. exact Htrace.
  - rewrite !polls_cons. simpl.
    replace (Z.to_nat (r0 + timeout - (lastRound + 1))) with n in Hpolls by lia. lia.
  - intros d' Hd'. destruct (Hret d' Hd') as [Hlast Hconf]. split; [|exact Hconf].
    rewrite !last_cons, Hlast. reflexivity.
Qed.

Lemma wp_waitForTransaction_trace timeout (w : World Node) Q :
  (∀ r nd st cs,
     match st with
     | Ok d =>
         match d !! "last-round" with
         | Some (VInt r0) => wait_trace txID r0 cs
         | _ => cs = []
         end
     | Raise _ => cs = []
     end →
     (polls cs ≤ Z.to_nat timeout)%nat →
     (∀ d, r = Ok d →
           last cs = Some (CPendingTransactionInfo txID (Ok d)) ∧ confirmed d) →
     Q r {| node := nd; calls := calls w ++ CStatus st :: cs; heap := heap w |}) →
  wp (waitForTransaction L client txID timeout) w Q.
Proof.
  intros HQ. unfold waitForTransaction.
  apply wp_bind, wp_call. intros [st|e] n0 _.
  2: { apply (HQ _ _ _ []); [reflexivity | unfold polls; simpl; lia | discriminate]. }
  apply wp_bind, wp_lift. unfold getitem.
  destruct (st !! "last-round") as [v|] eqn:Hv.
  2: { apply (HQ _ _ (Ok st) []);
         [rewrite Hv; reflexivity | unfold polls; simpl; lia | discriminate]. }
  apply wp_bind, wp_lift. destruct v as [|r0| | |]; simpl;
    try (apply (HQ _ _ (Ok st) []);
         [rewrite Hv; reflexivity | unfold polls; simpl; lia | discriminate]).
  apply wp_wait_loop_trace. intros r nd cs Htrace Hpolls Hret. simpl.
  rewrite <- app_assoc. simpl. apply (HQ _ _ (Ok st) cs).
  - rewrite Hv. exact Htrace.
  - replace (r0 + timeout - r0) with timeout in Hpolls by lia. exact Hpolls.
  - exact Hret.
Qed.

(** X1: the calls of a run of the waiter, for any client: one status query,
    then polls for the given transaction ID, each followed (while the loop
    goes on) by a wait for the next round, the rounds counted up from the
    round of the status query whatever the node answers in between; when
    the status query fails or has no integer last-round there is no other
    call.  The transaction objects are left as they were. *)
Theorem waitForTransaction_calls timeout (w : World Node) :
  ∃ st cs,
    calls_since w (waitForTransaction L client txID timeout w).2 = CStatus st :: cs ∧
    match st with
    | Ok d =>
        match d !! "last-round" with
        | Some (VInt r0) => wait_trace txID r0 cs
        | _ => cs = []
        end
    | Raise _ => cs = []
    end ∧
    heap (waitForTransaction L client txID timeout w).2 = heap w.
Proof.
  change (wp (waitForTransaction L client txID timeout) w
    (λ _ w', ∃ st cs,
       calls_since w w' = CStatus st :: cs ∧
       match st with
       | Ok d =>
           match d !! "last-round" with
           | Some (VInt r0) => wait_trace txID r0 cs
           | _ => cs = []
           end
       | Raise _ => cs = []
       end ∧
       heap w' = heap w)).
  apply wp_waitForTransaction_trace. intros r nd st cs Htrace _ _.
  exists st, cs. rewrite calls_since_world. auto.
Qed.

(** X2: the waiter never polls more often than its round budget says: at
    most [timeout] times, and not at all for a budget of 0 or less,
    whatever the node answers. *)
Theorem waitForTransaction_polls_bounded timeout (w : World Node) :
  (polls (calls_since w (waitForTransaction L client txID timeout w).2)
   ≤ Z.to_nat timeout)%nat.
Proof.
  change (wp (waitForTransaction L client txID timeout) w
    (λ _ w', (polls (calls_since w w') ≤ Z.to_nat timeout)%nat)).
  apply wp_waitForTransaction_trace. intros r nd st cs _ Hpolls _.
  rewrite calls_since_world, polls_cons. simpl. exact Hpolls.
Qed.

(** X3: a result the waiter returns is always a confirmation: it is the
    answer to the last call of the run, a poll for the transaction ID, and
    its confirmed-round is a positive integer. *)
Theorem waitForTransaction_returns_confirmed timeout (w w' : World Node) d :
  waitForTransaction L client txID timeout w = (Ok d, w') →
  last (calls_since w w') = Some (CPendingTransactionInfo txID (Ok d)) ∧
  ∃ c, get d "confirmed-round" (VInt 0) = VInt c ∧ 0 < c.
Proof.
  intros Hrun.
  assert (wp (waitForTransaction L client txID timeout) w
    (λ r w1, ∀ d, r = Ok d →
       last (calls_since w w1) = Some (CPendingTransactionInfo txID (Ok d)) ∧
       confirmed d)) as H.
  { apply wp_waitForTransaction_trace. intros r nd st cs _ _ Hret d' Hd'.
    destruct (Hret d' Hd') as [Hlast Hconf]. split; [|exact Hconf].
    rewrite calls_since_world, last_cons, Hlast. reflexivity. }
  unfold wp in H. rewrite Hrun in H. exact (H d eq_refl).
Qed.

(** After [N - 1] rounds in which the transaction was pending, the run is
    at the [N]-th iteration of the loop. *)
Lemma waitForTransaction_at_poll timeout (w : World Node) st n0 r0 (N : nat) :
  (1 ≤ N)%nat →
  Z.of_nat N ≤ timeout →
  status client (node w) = (Ok st, n0) →
  st !! "last-round" = Some (VInt r0) →
  (∀ k, (k < N - 1)%nat → pending_round client txID r0 n0 k) →
  waitForTransaction L client txID timeout w =
  (pending_txn <- call (CPendingTransactionInfo txID)
                       (pending_transaction_info client txID) ;;
   confirmed <- lift (as_int (get pending_txn "confirmed-round" (VInt 0))) ;;
   if 0 <? confirmed then ret pending_txn
   else
     pool_error <- lift (getitem pending_txn "pool-error") ;;
     if truthy pool_error then
       raise (Exception (pool_error_message L pool_error))
     else
       lastStatus <- call (CStatusAfterBlock (r0 + Z.of_nat (N - 1) + 1))
                          (status_after_block client (r0 + Z.of_nat (N - 1) + 1)) ;;
       wait_loop L client txID timeout r0 (r0 + Z.of_nat (N - 1) + 1))
    {| node := node_before_poll client txID r0 n0 (N - 1);
       calls := calls w ++ CStatus (Ok st) :: rounds_trace client txID r0 n0 (N - 1);
       heap := heap w |}.
Proof.
  intros HN Ht Hst Hr Hpend.
  rewrite (waitForTransaction_start _ _ _ _ _ _ _ _ Hst Hr).
  rewrite (wait_loop_pending_rounds _ _ _ (N - 1)); simpl; [| lia | exact Hpend].
  rewrite wait_loop_eq. case_decide; [|lia].
  rewrite <- app_assoc. reflexivity.
Qed.

Lemma polls_at_poll (w : World Node) st n0 r0 (N : nat) nd (tail : list Call) h :
  (1 ≤ N)%nat →
  polls tail = 1%nat →
  polls (calls_since w
           {| node := nd;
              calls := (calls w ++ CStatus (Ok st) ::
                          rounds_trace client txID r0 n0 (N - 1)) ++ tail;
              heap := h |}) = N.
Proof.
  intros HN Htail.
  erewrite calls_since_app by (simpl; rewrite <- app_assoc; reflexivity).
  rewrite polls_app, polls_cons, polls_rounds_trace, Htail. simpl. lia.
Qed.

(** X4: a rejection at any poll, not only the first.  After [N - 1] pending
    rounds, a poll whose confirmed-round is an integer not above 0 and whose
    pool-error is any true value (a non-empty string, say) makes the waiter
    raise [Exception("Pool error: ...")] with that value rendered by
    [str.format]; it has polled [N] times and does not wait for another
    block. *)
Theorem waitForTransaction_rejected_at timeout (w : World Node) st n0 r0 (N : nat) d c v :
  (1 ≤ N)%nat →
  Z.of_nat N ≤ timeout →
  status client (node w) = (Ok st, n0) →
  st !! "last-round" = Some (VInt r0) →
  (∀ k, (k < N - 1)%nat → pending_round client txID r0 n0 k) →
  poll_response client txID r0 n0 (N - 1) = Ok d →
  get d "confirmed-round" (VInt 0) = VInt c →
  c ≤ 0 →
  d !! "pool-error" = Some v →
  truthy v = true →
  ∃ w',
    waitForTransaction L client txID timeout w =
      (Raise (Exception ("Pool error: " +:+ py_str L v)), w') ∧
    polls (calls_since w w') = N ∧
    last (calls_since w w') = Some (CPendingTransactionInfo txID (Ok d)).
Proof.
  intros HN Ht Hst Hr Hpend Hd Hc Hneg Hv Htrue.
  rewrite (waitForTransaction_at_poll _ _ _ _ _ N HN Ht Hst Hr Hpend).
  unfold poll_response in Hd.
  unfold bind at 1. unfold call at 1. simpl.
  destruct (pending_transaction_info client txID
              (node_before_poll client txID r0 n0 (N - 1))) as [r n1].
  simpl in Hd. subst r.
  unfold bind at 1. unfold lift at 1. rewrite Hc. simpl.
  destruct (Z.ltb_spec 0 c); [lia|].
  unfold bind at 1. unfold lift at 1. unfold getitem. rewrite Hv, Htrue.
  eexists. split; [reflexivity|]. split.
  - apply polls_at_poll; [exact HN | reflexivity].
  - erewrite calls_since_app by (simpl; rewrite <- app_assoc; reflexivity).
    rewrite ?last_cons, last_app. reflexivity.
Qed.

(** X5: an error of the node client during a poll is not caught: when poll
    number [N] raises, after [N - 1] pending rounds, the waiter ends with
    that same exception. *)
Theorem waitForTransaction_poll_error timeout (w : World Node) st n0 r0 (N : nat) e :
  (1 ≤ N)%nat →
  Z.of_nat N ≤ timeout →
  status client (node w) = (Ok st, n0) →
  st !! "last-round" = Some (VInt r0) →
  (∀ k, (k < N - 1)%nat → pending_round client txID r0 n0 k) →
  poll_response client txID r0 n0 (N - 1) = Raise e →
  ∃ w',
    waitForTransaction L client txID timeout w = (Raise e, w') ∧
    polls (calls_since w w') = N.
Proof.
  intros HN Ht Hst Hr Hpend He.
  rewrite (waitForTransaction_at_poll _ _ _ _ _ N HN Ht Hst Hr Hpend).
  unfold poll_response in He.
  unfold bind at 1. unfold call at 1. simpl.
  destruct (pending_transaction_info client txID
              (node_before_poll client txID r0 n0 (N - 1))) as [r n1].
  simpl in He. subst r.
  eexists. split; [reflexivity|].
  apply polls_at_poll; [exact HN | reflexivity].
Qed.

(** X6: an error of the node client while waiting for the next block is not
    caught either: when the wait after the [N]-th pending poll raises, the
    waiter ends with that exception, after [N] polls. *)
Theorem waitForTransaction_block_error timeout (w : World Node) st n0 r0 (N : nat) d e :
  (1 ≤ N)%nat →
  Z.of_nat N ≤ timeout →
  status client (node w) = (Ok st, n0) →
  st !! "last-round" = Some (VInt r0) →
  (∀ k, (k < N - 1)%nat → pending_round client txID r0 n0 k) →
  poll_response client txID r0 n0 (N - 1) = Ok d →
  still_pending d →
  block_response client txID r0 n0 (N - 1) = Raise e →
  ∃ w',
    waitForTransaction L client txID timeout w = (Raise e, w') ∧
    polls (calls_since w w') = N ∧
    last (calls_since w w') =
      Some (CStatusAfterBlock (r0 + Z.of_nat N) (Raise e)).
Proof.
  intros HN Ht Hst Hr Hpend Hd Hpd He.
  rewrite (waitForTransaction_at_poll _ _ _ _ _ N HN Ht Hst Hr Hpend).
  apply still_pending_not_confirmed in Hpd as [Hc Hp].
  unfold poll_response in Hd. unfold block_response in He.
  unfold bind at 1. unfold call at 1. simpl.
  destruct (pending_transaction_info client txID
              (node_before_poll client txID r0 n0 (N - 1))) as [r n1].
  simpl in Hd, He. subst r.
  unfold bind at 1. unfold lift at 1. rewrite Hc. simpl.
  unfold bind at 1. unfold lift at 1. rewrite Hp. simpl.
  unfold bind at 1. unfold call at 1. simpl.
  destruct (status_after_block client (r0 + Z.of_nat (N - 1) + 1) n1) as [r n2].
  simpl in He. subst r.
  eexists. split; [reflexivity|]. split.
  - simpl. rewrite <- app_assoc. apply polls_at_poll; [exact HN | reflexivity].
  - erewrite calls_since_app by (simpl; rewrite <- !app_assoc; reflexivity).
    rewrite ?last_cons, last_app. simpl.
    replace (r0 + Z.of_nat (N - 1) + 1) with (r0 + Z.of_nat N) by lia.
    reflexivity.
Qed.

(** X7: the pool-error is read with a subscript, not with [get]: an
    unconfirmed answer without the key "pool-error" makes the waiter raise
    [KeyError("pool-error")] at that poll. *)
Theorem waitForTransaction_missing_pool_error timeout (w : World Node) st n0 r0
    (N : nat) d c :
  (1 ≤ N)%nat →
  Z.of_nat N ≤ timeout →
  status client (node w) = (Ok st, n0) →
  st !! "last-round" = Some (VInt r0) →
  (∀ k, (k < N - 1)%nat → pending_round client txID r0 n0 k) →
  poll_response client txID r0 n0 (N - 1) = Ok d →
  get d "confirmed-round" (VInt 0) = VInt c →
  c ≤ 0 →
  d !! "pool-error" = None →
  ∃ w',
    waitForTransaction L client txID timeout w = (Raise (KeyError "pool-error"), w') ∧
    polls (calls_since w w') = N.
Proof.
  intros HN Ht Hst Hr Hpend Hd Hc Hneg Hv.
  rewrite (waitForTransaction_at_poll _ _ _ _ _ N HN Ht Hst Hr Hpend).
  unfold poll_response in Hd.
  unfold bind at 1. unfold call at 1. simpl.
  destruct (pending_transaction_info client txID
              (node_before_poll client txID r0 n0 (N - 1))) as [r n1].
  simpl in Hd. subst r.
  unfold bind at 1. unfold lift at 1. rewrite Hc. simpl.
  destruct (Z.ltb_spec 0 c); [lia|].
  unfold bind at 1. unfold lift at 1. unfold getitem. rewrite Hv.
  eexists. split; [reflexivity|].
  apply polls_at_poll; [exact HN | reflexivity].
Qed.

End WaiterMore.

(** ** The integer arguments *)

Lemma to_bytes_overflow (z : Z) (n : nat) :
  ¬ (0 ≤ z < 2 ^ (8 * Z.of_nat n)) → to_bytes z n = Raise OverflowError.
Proof.
  intros H. unfold to_bytes.
  destruct (Z.ltb_spec z 0); [reflexivity|].
  destruct (Z.leb_spec (2 ^ (8 * Z.of_nat n)) z); [reflexivity | lia].
Qed.

Lemma to_bytes_in_range (z : Z) (n : nat) :
  0 ≤ z < 2 ^ (8 * Z.of_nat n) → to_bytes z n = Ok (rev (le_bytes n z)).
Proof.
  intros H. unfold to_bytes.
  destruct (Z.ltb_spec z 0); [lia|].
  destruct (Z.leb_spec (2 ^ (8 * Z.of_nat n)) z); [lia | reflexivity].
Qed.

(** X8: [z.to_bytes(n, "big")] and the big-endian reading are a round trip:
    the conversion succeeds exactly for [0 ≤ z < 2^(8n)] and raises
    [OverflowError] otherwise; when it succeeds it gives [n] bytes that read
    back as [z], so two integers with the same encoding are equal. *)
Theorem to_bytes_round_trip (z : Z) (n : nat) :
  (0 ≤ z < 2 ^ (8 * Z.of_nat n) →
     ∃ bs, to_bytes z n = Ok bs ∧ length bs = n ∧ from_bytes bs = z) ∧
  (¬ (0 ≤ z < 2 ^ (8 * Z.of_nat n)) → to_bytes z n = Raise OverflowError) ∧
  (∀ z' bs, to_bytes z n = Ok bs → to_bytes z' n = Ok bs → z = z').
Proof.
  split; [|split].
  - intros H. exists (rev (le_bytes n z)).
    split; [apply to_bytes_in_range, H|].
    apply to_bytes_big_endian, to_bytes_in_range, H.
  - apply to_bytes_overflow.
  - intros z' bs Hz Hz'.
    apply to_bytes_big_endian in Hz as [_ <-].
    apply to_bytes_big_endian in Hz' as [_ <-]. reflexivity.
Qed.

(** ** More about the lifecycle operations *)

Lemma compile_is_query (c : Call) : is_compile c = true → is_query c = true.
Proof. destruct c; simpl; intros; first [reflexivity | discriminate]. Qed.

(** Proves that the calls of a list are all queries. *)
Ltac all_queries :=
  repeat first
    [ assumption
    | apply Forall_nil_2
    | apply Forall_cons_2; [reflexivity|]
    | apply Forall_app_2
    | match goal with
      | H : Forall (λ c, is_compile c = true) ?cs |- Forall _ ?cs =>
          apply (Forall_impl _ _ _ H), compile_is_query
      | H : Forall (λ c, is_wait c = true) ?cs |- Forall _ ?cs =>
          apply (Forall_impl _ _ _ H), wait_is_query
      end ].

(** Closes a goal about the submissions of a run that has submitted nothing,
    when queries of any kind were made. *)
Ltac no_submissions :=
  repeat match goal with Q := _ |- _ => subst Q end;
  simpl; intros;
  match goal with
  | Hin : ?c ∈ calls_since _ _, Hc : is_submission ?c = true |- _ =>
      exfalso;
      simpl in Hin; rewrite <- ?app_assoc in Hin;
      first [rewrite calls_since_world in Hin | rewrite calls_since_refl in Hin];
      revert Hin Hc; apply no_submission; all_queries
  end.

Section LifecycleMore.
Context (L : Library) {Node : Type} (client : AlgodClient Node).

Lemma getContracts_queries : only_calls is_query (getContracts L client).
Proof.
  apply (only_calls_mono is_compile);
    [exact compile_is_query | apply only_calls_getContracts].
Qed.

Lemma create_tail_queries (signedTxn : SignedTransaction) :
  only_calls is_query
    (txid <- txid_of L signedTxn ;;
     response <- waitForTransaction L client txid default_timeout ;;
     application_index <- lift (getitem response "application-index") ;;
     match application_index with
     | VNone => raise AssertionError
     | _ =>
         i <- lift (as_int application_index) ;;
         if 0 <? i then ret i else raise AssertionError
     end).
Proof.
  apply (only_calls_mono is_wait);
    [exact wait_is_query | apply only_calls_create_tail].
Qed.

(** X9: [createAmmApp] submits at most once, with [send_transaction]: the
    one transaction, not part of any group and signed with the given
    private key; and it only gets that far when the four integers fit in
    8 bytes unsigned. *)
Theorem createAmmApp_submission tokenA tokenB feeBps minIncrement creator private_key
    (w : World Node) c :
  c ∈ calls_since w (createAmmApp L client tokenA tokenB feeBps minIncrement
                       creator private_key w).2 →
  is_submission c = true →
  (∃ stx reply,
     c = CSendTransaction stx reply ∧
     group (transaction stx) = None ∧
     signed_with stx = private_key) ∧
  submissions (calls_since w (createAmmApp L client tokenA tokenB feeBps minIncrement
                                creator private_key w).2) = [c] ∧
  uint64 tokenA ∧ uint64 tokenB ∧ uint64 feeBps ∧ uint64 minIncrement.
Proof.
  revert c.
  pose (Q := λ (_ : Res Z) (w' : World Node),
    ∀ c, c ∈ calls_since w w' → is_submission c = true →
      (∃ stx reply,
         c = CSendTransaction stx reply ∧
         group (transaction stx) = None ∧
         signed_with stx = private_key) ∧
      submissions (calls_since w w') = [c] ∧
      uint64 tokenA ∧ uint64 tokenB ∧ uint64 feeBps ∧ uint64 minIncrement).
  change (wp (createAmmApp L client tokenA tokenB feeBps minIncrement
                creator private_key) w Q).
  unfold createAmmApp.
  apply wp_bind, getContracts_queries.
  intros [[approval clear]|e] n1 cs1 Hcs1; [|no_submissions].
  wp_lift_step as address Haddress; [|no_submissions].
  wp_lift_step as a Ha; [|no_submissions].
  wp_lift_step as b Hb; [|no_submissions].
  wp_lift_step as f Hf; [|no_submissions].
  wp_lift_step as m Hm; [|no_submissions].
  apply wp_bind, wp_call. intros [params|e] n2 _; [|no_submissions].
  apply wp_bind, wp_new_txn; [no_submissions|]. intros _.
  apply wp_bind, wp_sign; [no_submissions|]. intros _.
  unfold wire. apply wp_bind, wp_bind, wp_load; simpl; [|no_submissions].
  intros t Ht. rewrite list_lookup_middle in Ht by reflexivity. injection Ht as <-.
  apply wp_ret, wp_bind, wp_call. intros sent n3 _.
  assert (∀ r nd cs h, Forall (λ c, is_query c = true) cs →
    Q r {| node := nd;
           calls := (((calls w ++ cs1) ++ [CSuggestedParams (Ok params)]) ++
                     [CSendTransaction
                        {| transaction :=
                             {| fields := ApplicationCreateTxn creator NoOpOC
                                            approval clear
                                            {| num_uints := 7; num_byte_slices := 1 |}
                                            {| num_uints := 0; num_byte_slices := 0 |}
                                            [address; a; b; f; m];
                                sp := params; group := None |};
                           signed_with := private_key |} sent]) ++ cs;
           heap := h |}) as Hleaf.
  2: { destruct sent as [txid0|e].
       - apply create_tail_queries. intros r nd cs Hcs. apply Hleaf, Hcs.
       - specialize (Hleaf (Raise e) n3 []). rewrite app_nil_r in Hleaf.
         apply Hleaf. constructor. }
  intros r nd cs h Hcs c Hin Hc.
  rewrite <- !app_assoc, calls_since_world in *.
  rewrite (app_assoc cs1) in Hin |- *.
  destruct (single_submission _ _ _ _ Hin Hc) as [-> Hsub];
    [all_queries | exact Hcs | reflexivity |].
  split; [eexists _, _; repeat split|].
  split; [exact Hsub|].
  unfold uint64.
  repeat split;
    match goal with
    | |- 0 ≤ ?z =>
        match goal with
        | H : to_bytes z 8 = Ok _ |- _ =>
            unfold to_bytes in H; destruct (Z.ltb_spec z 0); [discriminate | lia]
        end
    | |- ?z < _ =>
        match goal with
        | H : to_bytes z 8 = Ok _ |- _ =>
            unfold to_bytes in H; destruct (Z.ltb_spec z 0); [discriminate|];
            destruct (Z.leb_spec (2 ^ (8 * Z.of_nat 8)) z); [discriminate | lia]
        end
    end.
Qed.

(** X10: an integer argument that does not fit in 8 bytes unsigned (a
    negative one, or one from 2^64 on) stops [createAmmApp] with
    [OverflowError] right after the contracts are compiled and the creator
    address is decoded: nothing more is asked of the node and nothing is
    submitted. *)
Theorem createAmmApp_overflow tokenA tokenB feeBps minIncrement creator private_key
    (w w1 : World Node) programs address :
  getContracts L client w = (Ok programs, w1) →
  decode_address L creator = Ok address →
  ¬ (uint64 tokenA ∧ uint64 tokenB ∧ uint64 feeBps ∧ uint64 minIncrement) →
  createAmmApp L client tokenA tokenB feeBps minIncrement creator private_key w =
    (Raise OverflowError, w1).
Proof.
  intros Hget Haddr Hrange. unfold createAmmApp.
  unfold bind at 1. rewrite Hget.
  unfold bind at 1. unfold lift at 1. rewrite Haddr.
  unfold uint64 in Hrange.
  destruct (decide (0 ≤ tokenA < 2 ^ 64)) as [HA|HA];
    [rewrite (to_bytes_in_range tokenA 8 HA)
    | unfold bind at 1; unfold lift at 1;
      rewrite (to_bytes_overflow tokenA 8 HA); reflexivity].
  unfold bind at 1. unfold lift at 1.
  destruct (decide (0 ≤ tokenB < 2 ^ 64)) as [HB|HB];
    [rewrite (to_bytes_in_range tokenB 8 HB)
    | unfold bind at 1; unfold lift at 1;
      rewrite (to_bytes_overflow tokenB 8 HB); reflexivity].
  unfold bind at 1. unfold lift at 1.
  destruct (decide (0 ≤ feeBps < 2 ^ 64)) as [HF|HF];
    [rewrite (to_bytes_in_range feeBps 8 HF)
    | unfold bind at 1; unfold lift at 1;
      rewrite (to_bytes_overflow feeBps 8 HF); reflexivity].
  unfold bind at 1. unfold lift at 1.
  destruct (decide (0 ≤ minIncrement < 2 ^ 64)) as [HM|HM];
    [tauto
    | unfold bind at 1; unfold lift at 1;
      rewrite (to_bytes_overflow minIncrement 8 HM); reflexivity].
Qed.

Lemma check_application_index_ok (response : dict) (i : Z) :
  check_application_index response = Ok i →
  response !! "application-index" = Some (VInt i) ∧ 0 < i.
Proof.
  unfold check_application_index, getitem.
  destruct (response !! "application-index") as [v|]; [|discriminate].
  destruct v; simpl; try discriminate.
  destruct (Z.ltb_spec 0 z); [|discriminate].
  intros [= <-]. split; [reflexivity | assumption].
Qed.

(** X11: [createAmmApp] never returns anything but a positive application
    ID, and the ID it returns is the application-index of the confirmation:
    the run ended with a poll whose answer has a positive confirmed-round
    and that application-index. *)
Theorem createAmmApp_returns_positive tokenA tokenB feeBps minIncrement creator
    private_key (w w' : World Node) i :
  createAmmApp L client tokenA tokenB feeBps minIncrement creator private_key w =
    (Ok i, w') →
  0 < i ∧
  ∃ txid d,
    last (calls_since w w') = Some (CPendingTransactionInfo txid (Ok d)) ∧
    (∃ c, get d "confirmed-round" (VInt 0) = VInt c ∧ 0 < c) ∧
    d !! "application-index" = Some (VInt i).
Proof.
  intros Hrun.
  assert (wp (createAmmApp L client tokenA tokenB feeBps minIncrement
                creator private_key) w
    (λ r w1, ∀ i, r = Ok i →
       0 < i ∧
       ∃ txid d,
         last (calls_since w w1) = Some (CPendingTransactionInfo txid (Ok d)) ∧
         confirmed d ∧
         d !! "application-index" = Some (VInt i))) as H.
  { unfold createAmmApp.
    apply wp_bind, only_calls_getContracts.
    intros [[approval clear]|e] n1 cs1 Hcs1; [|discriminate].
    do 5 (wp_lift_step; [|discriminate]).
    apply wp_bind, wp_call. intros [params|e] n2 _; [|discriminate].
    apply wp_bind, wp_new_txn; [discriminate|]. intros _.
    apply wp_bind, wp_sign; [discriminate|]. intros _.
    apply wp_bind, (only_calls_wire is_compile).
    intros [stx|e] n3 cs3 Hcs3; [|discriminate].
    apply wp_bind, wp_call. intros [txid0|e] n4 _; [|discriminate].
    apply wp_bind, (only_calls_txid_of L is_compile).
    intros [txid1|e] n5 cs5 Hcs5; [|discriminate].
    apply wp_bind, wp_waitForTransaction_trace.
    intros [d|e] n6 st cs6 _ _ Hret; [|discriminate].
    eapply wp_eq; [apply create_tail_pure|].
    intros j Hj. apply check_application_index_ok in Hj as [Hidx Hpos].
    split; [exact Hpos|].
    destruct (Hret d eq_refl) as [Hlast Hconf].
    exists txid1, d. split; [|split; assumption].
    simpl. rewrite <- !app_assoc, calls_since_world.
    rewrite !last_app, last_cons, Hlast. reflexivity. }
  unfold wp in H. rewrite Hrun in H. exact (H i eq_refl).
Qed.

(** X12: what [getContracts] returns is what the node compiled: a pair is
    returned only when both programs went through [compileTeal] (version 6)
    and the compile endpoint, approval first and clear second, as the only
    two calls; each component is the base64 decoding of the "result" string
    of the corresponding reply. *)
Theorem getContracts_returns (w w' : World Node) approval clear :
  getContracts L client w = (Ok (approval, clear), w') →
  ∃ teal_a teal_c reply_a reply_c result_a result_c,
    compileTeal L (approval_program L) 6 = Ok teal_a ∧
    compileTeal L (clear_program L) 6 = Ok teal_c ∧
    calls_since w w' = [CCompile teal_a (Ok reply_a); CCompile teal_c (Ok reply_c)] ∧
    reply_a !! "result" = Some (VStr result_a) ∧
    b64decode L result_a = Ok approval ∧
    reply_c !! "result" = Some (VStr result_c) ∧
    b64decode L result_c = Ok clear ∧
    heap w' = heap w.
Proof.
  unfold getContracts, fullyCompileContract, bind, call, lift, ret, getitem.
  destruct (compileTeal L (approval_program L) 6) as [teal_a|e]; [|discriminate].
  destruct (compile client teal_a (node w)) as [[reply_a|e] n1]; [|discriminate].
  destruct (reply_a !! "result") as [va|] eqn:Hva; [|discriminate].
  destruct va as [| |result_a| |]; simpl; try discriminate.
  destruct (b64decode L result_a) as [a|e] eqn:Ha; [|discriminate].
  destruct (compileTeal L (clear_program L) 6) as [teal_c|e]; [|discriminate].
  simpl.
  destruct (compile client teal_c n1) as [[reply_c|e] n2]; [|discriminate].
  destruct (reply_c !! "result") as [vc|] eqn:Hvc; [|discriminate].
  destruct vc as [| |result_c| |]; simpl; try discriminate.
  destruct (b64decode L result_c) as [c|e] eqn:Hc; [|discriminate].
  intros [= <- <- <-].
  exists teal_a, teal_c, reply_a, reply_c, result_a, result_c.
  repeat split; try assumption; try reflexivity.
  apply calls_since_app. simpl. rewrite <- app_assoc. reflexivity.
Qed.

(** The scan goes through the entries with other keys and then does with
    entry [i] whatever one step of the loop does with it. *)
Lemma scan_reaches (entries : list PyVal) (i : nat) (entry : PyVal) :
  entries !! i = Some entry →
  (∀ j e, (j < i)%nat → entries !! j = Some e → other_key L e) →
  ∀ n k, (k ≤ i < k + n)%nat →
    scan_global_state L (VList entries) (seq k n) =
    scan_global_state L (VList entries) (seq i (k + n - i)).
Proof.
  intros Hi Hbefore.
  induction n as [|n IH]; intros k Hk; [lia|].
  destruct (decide (k = i)) as [->|Hne].
  - replace (i + S n - i)%nat with (S n) by lia. reflexivity.
  - simpl seq. rewrite scan_global_state_cons.
    destruct (lookup_lt_is_Some_2 entries k) as [e He].
    { apply lookup_lt_Some in Hi. lia. }
    destruct (Hbefore k e ltac:(lia) He) as (key & Hk' & Hother).
    cbn [index]. rewrite He. cbn [rbind]. rewrite Hk'. cbn [rbind].
    rewrite decide_False by exact Hother.
    rewrite (IH (S k)) by lia.
    replace (S k + n - i)%nat with (k + S n - i)%nat by lia. reflexivity.
Qed.

Lemma read_pool_token_reaches (info params : dict) (entries : list PyVal)
    (i : nat) (entry : PyVal) :
  info !! "params" = Some (VDict params) →
  params !! "global-state" = Some (VList entries) →
  entries !! i = Some entry →
  (∀ j e, (j < i)%nat → entries !! j = Some e → other_key L e) →
  read_pool_token L info =
  (decoded <~ key_of L entry ;;
   if decide (decoded = pool_token_key) then uint_of entry
   else scan_global_state L (VList entries) (seq (S i) (length entries - S i))).
Proof.
  intros Hparams Hgs Hi Hbefore.
  unfold read_pool_token, getitem. rewrite Hparams. cbn [rbind subscript].
  unfold getitem. rewrite Hgs. cbn [rbind py_len].
  pose proof (lookup_lt_Some _ _ _ Hi) as Hlt.
  rewrite (scan_reaches entries i entry Hi Hbefore) by lia.
  replace (0 + length entries - i)%nat with (S (length entries - S i)) by lia.
  simpl seq. rewrite scan_global_state_cons.
  cbn [index]. rewrite Hi. reflexivity.
Qed.

(** X13: the global state is read with a subscript: when the application
    info the node returns has "params" without the key "global-state" (an
    application that has no global state yet), [setupAmmApp] raises
    [KeyError("global-state")], after the group was submitted and
    confirmed. *)
Theorem setupAmmApp_no_global_state appID tokenA tokenB funder private_key
    (w : World Node) info params :
  CApplicationInfo appID (Ok info) ∈
    calls_since w (setupAmmApp L client appID tokenA tokenB funder private_key w).2 →
  info !! "params" = Some (VDict params) →
  params !! "global-state" = None →
  (setupAmmApp L client appID tokenA tokenB funder private_key w).1 =
    Raise (KeyError "global-state").
Proof.
  intros Hin Hparams Hgs.
  rewrite (setupAmmApp_result _ _ _ _ _ _ _ _ _ Hin).
  unfold read_pool_token, getitem. rewrite Hparams. cbn [rbind subscript].
  unfold getitem. rewrite Hgs. reflexivity.
Qed.

(** X14: the scan does not skip an entry it cannot read: when the first
    entry that is not a well-formed other key has no readable key (no
    "key", a key that is not a string, or one that does not decode),
    [setupAmmApp] raises that error, whatever entries follow, the pool
    token's among them. *)
Theorem setupAmmApp_unreadable_entry appID tokenA tokenB funder private_key
    (w : World Node) info params entries (i : nat) entry err :
  CApplicationInfo appID (Ok info) ∈
    calls_since w (setupAmmApp L client appID tokenA tokenB funder private_key w).2 →
  info !! "params" = Some (VDict params) →
  params !! "global-state" = Some (VList entries) →
  entries !! i = Some entry →
  (∀ j e, (j < i)%nat → entries !! j = Some e → other_key L e) →
  key_of L entry = Raise err →
  (setupAmmApp L client appID tokenA tokenB funder private_key w).1 = Raise err.
Proof.
  intros Hin Hparams Hgs Hi Hbefore Hkey.
  rewrite (setupAmmApp_result _ _ _ _ _ _ _ _ _ Hin).
  rewrite (read_pool_token_reaches info params entries i entry Hparams Hgs Hi Hbefore).
  rewrite Hkey. reflexivity.
Qed.

(** X15: the first entry with the pool-token key decides the result even
    when its value cannot be read: when it has no "value", or a value
    without "uint", [setupAmmApp] raises that error and does not look at
    later entries with the same key. *)
Theorem setupAmmApp_unreadable_value appID tokenA tokenB funder private_key
    (w : World Node) info params entries (i : nat) entry err :
  CApplicationInfo appID (Ok info) ∈
    calls_since w (setupAmmApp L client appID tokenA tokenB funder private_key w).2 →
  info !! "params" = Some (VDict params) →
  params !! "global-state" = Some (VList entries) →
  entries !! i = Some entry →
  (∀ j e, (j < i)%nat → entries !! j = Some e → other_key L e) →
  key_of L entry = Ok (String.list_byte_of_string "pool_token_key") →
  uint_of entry = Raise err →
  (setupAmmApp L client appID tokenA tokenB funder private_key w).1 = Raise err.
Proof.
  intros Hin Hparams Hgs Hi Hbefore Hkey Hu.
  rewrite (setupAmmApp_result _ _ _ _ _ _ _ _ _ Hin).
  rewrite (read_pool_token_reaches info params entries i entry Hparams Hgs Hi Hbefore).
  rewrite Hkey. cbn [rbind]. rewrite decide_True by reflexivity. exact Hu.
Qed.

(** X16: whatever [optInToPoolToken] submits is one transaction sent with
    [send_transaction]: the opt-in of the account to the pool token, not
    part of a group and signed with the given key; it is the only
    submission of the run, and the application ID plays no part in it. *)
Theorem optInToPoolToken_submission appID account private_key poolToken
    (w : World Node) c :
  c ∈ calls_since w (optInToPoolToken L client appID account private_key poolToken w).2 →
  is_submission c = true →
  (∃ params reply,
     c = CSendTransaction
           {| transaction :=
                {| fields := AssetOptInTxn account poolToken;
                   sp := params; group := None |};
              signed_with := private_key |}
           reply) ∧
  submissions (calls_since w (optInToPoolToken L client appID account private_key
                                poolToken w).2) = [c].
Proof.
  revert c.
  pose (Q := λ (_ : Res unit) (w' : World Node),
    ∀ c, c ∈ calls_since w w' → is_submission c = true →
      (∃ params reply,
         c = CSendTransaction
               {| transaction :=
                    {| fields := AssetOptInTxn account poolToken;
                       sp := params; group := None |};
                  signed_with := private_key |}
               reply) ∧
      submissions (calls_since w w') = [c]).
  change (wp (optInToPoolToken L client appID account private_key poolToken) w Q).
  unfold optInToPoolToken.
  apply wp_bind, wp_call. intros [params|e] n1 _; [|no_submissions].
  apply wp_bind, wp_new_txn; [no_submissions|]. intros _.
  apply wp_bind, wp_sign; [no_submissions|]. intros _.
  unfold wire. apply wp_bind, wp_bind, wp_load; simpl; [|no_submissions].
  intros t Ht. rewrite list_lookup_middle in Ht by reflexivity. injection Ht as <-.
  apply wp_ret, wp_bind, wp_call. intros sent n2 _.
  assert (∀ r nd cs h, Forall (λ c, is_query c = true) cs →
    Q r {| node := nd;
           calls := ((calls w ++ [CSuggestedParams (Ok params)]) ++
                     [CSendTransaction
                        {| transaction :=
                             {| fields := AssetOptInTxn account poolToken;
                                sp := params; group := None |};
                           signed_with := private_key |} sent]) ++ cs;
           heap := h |}) as Hleaf.
  2: { destruct sent as [txid0|e].
       - apply only_calls_wait_tail. intros r nd cs Hcs. apply Hleaf, Hcs.
       - specialize (Hleaf (Raise e) n2 []). rewrite app_nil_r in Hleaf.
         apply Hleaf. constructor. }
  intros r nd cs h Hcs c Hin Hc.
  rewrite <- !app_assoc, calls_since_world in *.
  destruct (single_submission _ _ _ _ Hin Hc) as [-> Hsub];
    [all_queries | exact Hcs | reflexivity |].
  split; [|exact Hsub]. exists params, sent. reflexivity.
Qed.

Lemma lookup_fresh (h objs : list Transaction) (k i : nat) :
  i = (length h + k)%nat → (h ++ objs) !! i = objs !! k.
Proof.
  intros ->. rewrite lookup_app_r by lia. f_equal. lia.
Qed.

Lemma wait_trace_poll_txid (txID tx : string) (r : Z) (cs : list Call) reply :
  wait_trace txID r cs → CPendingTransactionInfo tx reply ∈ cs → tx = txID.
Proof.
  induction 1 as [r|r reply0|r reply0 reply1 cs Htrace IH]; intros Hin.
  - inversion Hin.
  - apply list_elem_of_singleton in Hin. congruence.
  - apply elem_of_cons in Hin as [Hin|Hin]; [congruence|].
    apply elem_of_cons in Hin as [Hin|Hin]; [discriminate|].
    apply IH, Hin.
Qed.

Lemma waiter_poll_txid (txID tx : string) (st : Res dict) (cs : list Call) reply :
  match st with
  | Ok d =>
      match d !! "last-round" with
      | Some (VInt r0) => wait_trace txID r0 cs
      | _ => cs = []
      end
  | Raise _ => cs = []
  end →
  CPendingTransactionInfo tx reply ∈ CStatus st :: cs →
  tx = txID.
Proof.
  intros Hcs Hin. apply elem_of_cons in Hin as [Hin|Hin]; [discriminate|].
  destruct st as [d|e]; [|subst cs; inversion Hin].
  destruct (d !! "last-round") as [[|r0| | |]|];
    try (subst cs; inversion Hin).
  apply (wait_trace_poll_txid _ _ _ _ _ Hcs Hin).
Qed.

(** X17: [supply] returns normally only when the node confirmed the group:
    the run then ended with a poll for the ID of the "supply" application
    call, taken after the group identifier was written into it, and the
    answer to that poll has a positive confirmed-round. *)
Theorem supply_returns_confirmed appID qA qB supplier private_key tokenA tokenB
    poolToken (w w' : World Node) :
  supply L client appID qA qB supplier private_key tokenA tokenB poolToken w =
    (Ok (), w') →
  ∃ appAddr params gid d,
    get_application_address L appID = Ok appAddr ∧
    last (calls_since w w') =
      Some (CPendingTransactionInfo
              (get_txid L {| fields := ApplicationCallTxn supplier appID NoOpOC
                                         [String.list_byte_of_string "supply"]
                                         [tokenA; tokenB; poolToken];
                             sp := params; group := Some gid |})
              (Ok d)) ∧
    ∃ c, get d "confirmed-round" (VInt 0) = VInt c ∧ 0 < c.
Proof.
  intros Hrun.
  assert (wp (supply L client appID qA qB supplier private_key
                tokenA tokenB poolToken) w
    (λ r w1, r = Ok () →
       ∃ appAddr params gid d,
         get_application_address L appID = Ok appAddr ∧
         last (calls_since w w1) =
           Some (CPendingTransactionInfo
                   (get_txid L {| fields := ApplicationCallTxn supplier appID NoOpOC
                                              [String.list_byte_of_string "supply"]
                                              [tokenA; tokenB; poolToken];
                                  sp := params; group := Some gid |})
                   (Ok d)) ∧
         confirmed d)) as H.
  { unfold supply.
    wp_lift_step as appAddr Happ; [|discriminate].
    apply wp_bind, wp_call. intros [params|e] n1 _; [|discriminate].
    do 4 (apply wp_bind, wp_new_txn; [discriminate|]; intros _).
    simpl. rewrite !length_app, !Nat.add_1_r, <- !app_assoc. simpl.
    apply wp_bind; eapply (wp_assign_group_id_fresh L [_; _; _; _] (heap w));
      [reflexivity | discriminate | intros gid _].
    do 4 (apply wp_bind, wp_sign; [discriminate|]; intros _).
    apply wp_bind.
    eapply wp_eq;
      [eapply (mapM_wire_fresh private_key [_; _; _; _] (heap w)); reflexivity|].
    apply wp_bind, wp_call. intros [txid0|e] n2 _; [|discriminate].
    unfold txid_of. apply wp_bind, wp_bind, wp_load; [|discriminate].
    intros t Ht. simpl in Ht.
    rewrite (lookup_fresh _ _ 3) in Ht by lia. injection Ht as <-.
    apply wp_ret, wp_bind, wp_waitForTransaction_trace.
    intros [d|e] n3 st cs _ _ Hret; [|discriminate].
    apply wp_ret. intros _.
    destruct (Hret d eq_refl) as [Hlast Hconf].
    exists appAddr, params, gid, d. split; [reflexivity|]. split; [|exact Hconf].
    simpl. rewrite <- !app_assoc, calls_since_world.
    rewrite !last_app, last_cons, Hlast. reflexivity. }
  unfold wp in H. rewrite Hrun in H. exact (H eq_refl).
Qed.

(** X18: [setupAmmApp] waits for the funding payment: every poll of a run
    asks for the transaction ID of that payment as it is once the group
    identifier has been written into it. *)
Theorem setupAmmApp_polls_funding appID tokenA tokenB funder private_key
    (w : World Node) txid reply :
  CPendingTransactionInfo txid reply ∈
    calls_since w (setupAmmApp L client appID tokenA tokenB funder private_key w).2 →
  ∃ appAddr params gid,
    get_application_address L appID = Ok appAddr ∧
    txid = get_txid L {| fields := PaymentTxn funder appAddr 403000;
                         sp := params; group := Some gid |}.
Proof.
  change (wp (setupAmmApp L client appID tokenA tokenB funder private_key) w
    (λ _ w', CPendingTransactionInfo txid reply ∈ calls_since w w' →
       ∃ appAddr params gid,
         get_application_address L appID = Ok appAddr ∧
         txid = get_txid L {| fields := PaymentTxn funder appAddr 403000;
                              sp := params; group := Some gid |})).
  unfold setupAmmApp.
  wp_lift_step as appAddr Happ; [|quiet].
  apply wp_bind, wp_call. intros [params|e] n1 _; [|quiet].
  apply wp_bind, wp_new_txn; [quiet|]. intros _.
  apply wp_bind, wp_new_txn; [quiet|]. intros _.
  simpl. rewrite length_app, Nat.add_1_r, <- app_assoc. simpl.
  apply wp_bind; eapply (wp_assign_group_id_fresh L [_; _] (heap w));
    [reflexivity | quiet | intros gid _].
  apply wp_bind, wp_sign; [quiet|]. intros _.
  apply wp_bind, wp_sign; [quiet|]. intros _.
  apply wp_bind.
  eapply wp_eq; [eapply (mapM_wire_fresh private_key [_; _] (heap w)); reflexivity|].
  apply wp_bind, wp_call. intros [txid0|e] n2 _; [|quiet].
  unfold txid_of. apply wp_bind, wp_bind, wp_load; [|quiet].
  intros t Ht. simpl in Ht.
  rewrite (lookup_fresh _ _ 0) in Ht by lia. injection Ht as <-.
  apply wp_ret, wp_bind, wp_waitForTransaction_trace.
  intros r n3 st cs Htrace _ _.
  assert (∀ tail,
    Forall (λ c, is_poll c = false) tail →
    CPendingTransactionInfo txid reply ∈
      [CSuggestedParams (Ok params)] ++
      [CSendTransactions
         (map (λ t, {| transaction := t; signed_with := private_key |})
            (map (with_group gid)
               [ {| fields := PaymentTxn funder appAddr
                                (MIN_BALANCE_REQUIREMENT + 1000 * 3);
                    sp := params; group := None |};
                 {| fields := ApplicationCallTxn funder appID NoOpOC
                                [String.list_byte_of_string "setup"] [tokenA; tokenB];
                    sp := params; group := None |} ]))
         (Ok txid0)] ++ (CStatus st :: cs) ++ tail →
    ∃ appAddr0 params0 gid0,
      Ok appAddr = Ok appAddr0 ∧
      txid = get_txid L {| fields := PaymentTxn funder appAddr0 403000;
                           sp := params0; group := Some gid0 |}) as Hpolls.
  { intros tail Htail Hin.
    apply elem_of_cons in Hin as [Hin|Hin]; [discriminate|].
    apply elem_of_cons in Hin as [Hin|Hin]; [discriminate|].
    apply elem_of_app in Hin as [Hin|Hin].
    - apply (waiter_poll_txid _ _ _ _ _ Htrace) in Hin. subst txid.
      exists appAddr, params, gid. split; reflexivity.
    - rewrite Forall_forall in Htail. apply Htail in Hin. discriminate. }
  destruct r as [response|e].
  - apply wp_bind, wp_call. intros [info|e] n4 _.
    + eapply wp_eq; [apply setup_tail_pure|].
      simpl. rewrite <- !app_assoc, calls_since_world. intros Hin.
      eapply (Hpolls [_]); cycle 1; [simpl; exact Hin | repeat constructor].
    + simpl. rewrite <- !app_assoc, calls_since_world. intros Hin.
      eapply (Hpolls [_]); cycle 1; [simpl; exact Hin | repeat constructor].
  - simpl. rewrite <- !app_assoc, calls_since_world. intros Hin.
    apply (Hpolls []); [constructor|]. rewrite app_nil_r. exact Hin.
Qed.

End LifecycleMore.

(** ** How often an operation polls *)

Section PollBudget.
Context (L : Library) {Node : Type} (client : AlgodClient Node).

Lemma polls_within_silent {A} (m : M Node A) :
  (∀ w, calls (m w).2 = calls w) → polls_within 0 m.
Proof.
  intros H w. exists []. rewrite app_nil_r. split; [apply H | reflexivity].
Qed.

Lemma polls_within_lift {A} (r : Res A) : polls_within (Node := Node) 0 (lift r).
Proof. apply polls_within_silent. reflexivity. Qed.

Lemma polls_within_ret {A} (a : A) : polls_within (Node := Node) 0 (ret a).
Proof. apply polls_within_silent. reflexivity. Qed.

Lemma polls_within_raise {A} e : polls_within (Node := Node) 0 (raise (A := A) e).
Proof. apply polls_within_silent. reflexivity. Qed.

Lemma polls_within_load (r : ref) : polls_within (Node := Node) 0 (load r).
Proof.
  apply polls_within_silent. intros w. unfold load.
  destruct (heap w !! r); reflexivity.
Qed.

Lemma polls_within_new_txn f p : polls_within (Node := Node) 0 (new_txn L f p).
Proof.
  apply polls_within_silent. intros w. unfold new_txn.
  destruct (txn_check L f p); reflexivity.
Qed.

Lemma polls_within_set_group gid (r : ref) :
  polls_within (Node := Node) 0 (set_group gid r).
Proof. apply polls_within_silent. reflexivity. Qed.

Lemma polls_within_sign (r : ref) key : polls_within (Node := Node) 0 (sign L r key).
Proof.
  apply polls_within_silent. intros w. unfold sign.
  destruct (key_check L key); reflexivity.
Qed.

Lemma polls_within_call {A} (c : Res A → Call) (method : Node → Res A * Node) :
  (∀ r, is_poll (c r) = false) → polls_within 0 (call c method).
Proof.
  intros Hc w. unfold call. destruct (method (node w)) as [r n].
  exists [c r]. split; [reflexivity|].
  rewrite polls_cons, Hc. reflexivity.
Qed.

Lemma polls_within_bind {A B} (a b : nat) (m : M Node A) (k : A → M Node B) :
  polls_within a m → (∀ x, polls_within b (k x)) → polls_within (a + b) (bind m k).
Proof.
  intros Hm Hk w. unfold bind.
  destruct (Hm w) as (cs1 & Hcs1 & Hp1).
  destruct (m w) as [[x|e] w1]; simpl in *.
  - destruct (Hk x w1) as (cs2 & Hcs2 & Hp2).
    exists (cs1 ++ cs2). rewrite Hcs2, Hcs1, app_assoc.
    split; [reflexivity|]. rewrite polls_app. lia.
  - exists cs1. split; [exact Hcs1 | lia].
Qed.

Lemma polls_within_mapM {A B} (f : A → M Node B) (l : list A) :
  (∀ a, polls_within 0 (f a)) → polls_within 0 (mapM f l).
Proof.
  intros Hf. induction l as [|a l IH]; simpl.
  - apply polls_within_ret.
  - apply (polls_within_bind 0 0); [apply Hf | intros b].
    apply (polls_within_bind 0 0); [exact IH | intros bs].
    apply polls_within_ret.
Qed.

Lemma polls_within_waitForTransaction txID timeout :
  polls_within (Z.to_nat timeout) (waitForTransaction L client txID timeout).
Proof.
  intros w.
  change (wp (waitForTransaction L client txID timeout) w
    (λ _ w', ∃ cs, calls w' = calls w ++ cs ∧ (polls cs ≤ Z.to_nat timeout)%nat)).
  apply wp_waitForTransaction_trace. intros r nd st cs _ Hpolls _.
  eexists. split; [reflexivity|]. rewrite polls_cons. exact Hpolls.
Qed.

(** Steps that make no poll. *)
Ltac silent :=
  repeat first
    [ apply polls_within_ret
    | apply polls_within_raise
    | apply polls_within_lift
    | apply polls_within_load
    | apply polls_within_new_txn
    | apply polls_within_set_group
    | apply polls_within_sign
    | apply polls_within_call; reflexivity
    | apply polls_within_mapM; intros
    | apply (polls_within_bind 0 0); [|intros]
    | match goal with
      | |- polls_within _ (match ?x with _ => _ end) => destruct x
      end ].

Lemma polls_within_assign_group_id (txns : list ref) :
  polls_within (Node := Node) 0 (assign_group_id L txns).
Proof. unfold assign_group_id. silent. Qed.

Lemma polls_within_wire (stxn : SignedTransaction) :
  polls_within (Node := Node) 0 (wire stxn).
Proof. unfold wire. silent. Qed.

Lemma polls_within_txid_of (stxn : SignedTransaction) :
  polls_within (Node := Node) 0 (txid_of L stxn).
Proof. unfold txid_of. silent. Qed.

Lemma polls_within_getContracts : polls_within 0 (getContracts L client).
Proof. unfold getContracts, fullyCompileContract. silent. Qed.

(** One step that makes no poll, then the rest. *)
Ltac then_within n :=
  apply (polls_within_bind 0 n);
  [ first [ apply polls_within_getContracts
          | apply polls_within_assign_group_id
          | apply polls_within_wire
          | apply polls_within_txid_of
          | apply polls_within_mapM; intros; apply polls_within_wire
          | silent ]
  | intros ].

Lemma polls_within_createAmmApp tokenA tokenB feeBps minIncrement creator private_key :
  polls_within 10
    (createAmmApp L client tokenA tokenB feeBps minIncrement creator private_key).
Proof.
  unfold createAmmApp.
  do 12 then_within 10%nat.
  apply (polls_within_bind 10 0);
    [apply (polls_within_waitForTransaction _ default_timeout) | intros response].
  silent.
Qed.

Lemma polls_within_setupAmmApp appID tokenA tokenB funder private_key :
  polls_within 10 (setupAmmApp L client appID tokenA tokenB funder private_key).
Proof.
  unfold setupAmmApp.
  do 10 then_within 10%nat.
  apply (polls_within_bind 10 0);
    [apply (polls_within_waitForTransaction _ default_timeout) | intros _].
  silent.
Qed.

Lemma polls_within_optInToPoolToken appID account private_key poolToken :
  polls_within 10 (optInToPoolToken L client appID account private_key poolToken).
Proof.
  unfold optInToPoolToken.
  do 6 then_within 10%nat.
  apply (polls_within_bind 10 0);
    [apply (polls_within_waitForTransaction _ default_timeout) | intros _].
  silent.
Qed.

Lemma polls_within_supply appID qA qB supplier private_key tokenA tokenB poolToken :
  polls_within 10
    (supply L client appID qA qB supplier private_key tokenA tokenB poolToken).
Proof.
  unfold supply.
  do 14 then_within 10%nat.
  apply (polls_within_bind 10 0);
    [apply (polls_within_waitForTransaction _ default_timeout) | intros _].
  silent.
Qed.

Lemma polls_within_since {A} (n : nat) (m : M Node A) (w : World Node) :
  polls_within n m → (polls (calls_since w (m w).2) ≤ n)%nat.
Proof.
  intros H. destruct (H w) as (cs & Hcs & Hp).
  rewrite (calls_since_app _ _ _ Hcs). exact Hp.
Qed.

(** X19: each of the four operations waits with the default budget: a run
    of [createAmmApp], [setupAmmApp], [optInToPoolToken] or [supply] polls
    the node for a pending transaction at most 10 times, however the node
    behaves. *)
Theorem operations_polls_bounded (w : World Node)
    (appID tokenA tokenB poolToken feeBps minIncrement qA qB : Z)
    (account private_key : string) :
  (polls (calls_since w (createAmmApp L client tokenA tokenB feeBps minIncrement
                           account private_key w).2) ≤ 10)%nat ∧
  (polls (calls_since w (setupAmmApp L client appID tokenA tokenB
                           account private_key w).2) ≤ 10)%nat ∧
  (polls (calls_since w (optInToPoolToken L client appID account private_key
                           poolToken w).2) ≤ 10)%nat ∧
  (polls (calls_since w (supply L client appID qA qB account private_key
                           tokenA tokenB poolToken w).2) ≤ 10)%nat.
Proof.
  repeat split; apply polls_within_since.
  - apply polls_within_createAmmApp.
  - apply polls_within_setupAmmApp.
  - apply polls_within_optInToPoolToken.
  - apply polls_within_supply.
Qed.

End PollBudget.

(** ** More runs against the demo node *)

Lemma waitForTransaction_returns_confirmed_witness :
  last (calls_since demo_world
          (waitForTransaction demo_library (demo_client answers_third ∅)
             "TXID" 10 demo_world).2) =
    Some (CPendingTransactionInfo "TXID" (Ok answer_confirmed)) ∧
  ∃ c, get answer_confirmed "confirmed-round" (VInt 0) = VInt c ∧ 0 < c.
Proof.
  apply (waitForTransaction_returns_confirmed demo_library
           (demo_client answers_third ∅) "TXID" 10 demo_world).
  vm_compute. reflexivity.
Defined.

Lemma waitForTransaction_rejected_at_witness :
  ∃ w',
    waitForTransaction demo_library
      (scripted_client (third_reply (Ok answer_rejected)) next_block (Ok ∅))
      "TXID" 10 demo_world =
      (Raise (Exception "Pool error: overspend"), w') ∧
    polls (calls_since demo_world w') = 3%nat ∧
    last (calls_since demo_world w') =
      Some (CPendingTransactionInfo "TXID" (Ok answer_rejected)).
Proof.
  apply (waitForTransaction_rejected_at demo_library
           (scripted_client (third_reply (Ok answer_rejected)) next_block (Ok ∅))
           "TXID" 10 demo_world {[ "last-round" := VInt 100 ]} 0%nat 100 3
           answer_rejected 0 (VStr "overspend")).
  - lia.
  - lia.
  - reflexivity.
  - reflexivity.
  - intros k Hk. destruct k as [|[|k]]; [| |simpl in Hk; lia];
      (split; [exists answer_pending; split; [reflexivity | split; reflexivity]
              | eexists; reflexivity]).
  - reflexivity.
  - reflexivity.
  - lia.
  - reflexivity.
  - reflexivity.
Defined.

Lemma waitForTransaction_poll_error_witness :
  ∃ w',
    waitForTransaction demo_library
      (scripted_client (third_reply (Raise (Upstream "connection reset")))
         next_block (Ok ∅))
      "TXID" 10 demo_world = (Raise (Upstream "connection reset"), w') ∧
    polls (calls_since demo_world w') = 3%nat.
Proof.
  apply (waitForTransaction_poll_error demo_library
           (scripted_client (third_reply (Raise (Upstream "connection reset")))
              next_block (Ok ∅))
           "TXID" 10 demo_world {[ "last-round" := VInt 100 ]} 0%nat 100 3).
  - lia.
  - lia.
  - reflexivity.
  - reflexivity.
  - intros k Hk. destruct k as [|[|k]]; [| |simpl in Hk; lia];
      (split; [exists answer_pending; split; [reflexivity | split; reflexivity]
              | eexists; reflexivity]).
  - reflexivity.
Defined.

Lemma waitForTransaction_block_error_witness :
  ∃ w',
    waitForTransaction demo_library
      (scripted_client (λ _, Ok answer_pending) (blocks_until 103) (Ok ∅))
      "TXID" 10 demo_world = (Raise (Upstream "connection reset"), w') ∧
    polls (calls_since demo_world w') = 3%nat ∧
    last (calls_since demo_world w') =
      Some (CStatusAfterBlock (100 + Z.of_nat 3) (Raise (Upstream "connection reset"))).
Proof.
  apply (waitForTransaction_block_error demo_library
           (scripted_client (λ _, Ok answer_pending) (blocks_until 103) (Ok ∅))
           "TXID" 10 demo_world {[ "last-round" := VInt 100 ]} 0%nat 100 3
           answer_pending).
  - lia.
  - lia.
  - reflexivity.
  - reflexivity.
  - intros k Hk. destruct k as [|[|k]]; [| |simpl in Hk; lia];
      (split; [exists answer_pending; split; [reflexivity | split; reflexivity]
              | eexists; reflexivity]).
  - reflexivity.
  - split; reflexivity.
  - reflexivity.
Defined.

Lemma waitForTransaction_missing_pool_error_witness :
  ∃ w',
    waitForTransaction demo_library
      (scripted_client (third_reply (Ok answer_bare)) next_block (Ok ∅))
      "TXID" 10 demo_world = (Raise (KeyError "pool-error"), w') ∧
    polls (calls_since demo_world w') = 3%nat.
Proof.
  apply (waitForTransaction_missing_pool_error demo_library
           (scripted_client (third_reply (Ok answer_bare)) next_block (Ok ∅))
           "TXID" 10 demo_world {[ "last-round" := VInt 100 ]} 0%nat 100 3
           answer_bare 0).
  - lia.
  - lia.
  - reflexivity.
  - reflexivity.
  - intros k Hk. destruct k as [|[|k]]; [| |simpl in Hk; lia];
      (split; [exists answer_pending; split; [reflexivity | split; reflexivity]
              | eexists; reflexivity]).
  - reflexivity.
  - reflexivity.
  - lia.
  - reflexivity.
Defined.

Lemma createAmmApp_submission_witness :
  (∃ stx reply,
     CSendTransaction demo_create_stx (Ok "TXID") = CSendTransaction stx reply ∧
     group (transaction stx) = None ∧
     signed_with stx = "KEY") ∧
  submissions
    (calls_since demo_world
       (createAmmApp demo_library (demo_client (λ _, answer_created (VInt 77)) ∅)
          1 2 30 1 "CREATOR" "KEY" demo_world).2) =
    [CSendTransaction demo_create_stx (Ok "TXID")] ∧
  uint64 1 ∧ uint64 2 ∧ uint64 30 ∧ uint64 1.
Proof.
  apply (createAmmApp_submission demo_library
           (demo_client (λ _, answer_created (VInt 77)) ∅)
           1 2 30 1 "CREATOR" "KEY" demo_world
           (CSendTransaction demo_create_stx (Ok "TXID"))).
  - vm_compute. repeat constructor.
  - reflexivity.
Defined.

Lemma createAmmApp_overflow_witness :
  createAmmApp demo_library (demo_client (λ _, answer_created (VInt 77)) ∅)
    1 (2 ^ 64) 30 1 "CREATOR" "KEY" demo_world =
    (Raise OverflowError,
     (getContracts demo_library (demo_client (λ _, answer_created (VInt 77)) ∅)
        demo_world).2).
Proof.
  apply (createAmmApp_overflow demo_library
           (demo_client (λ _, answer_created (VInt 77)) ∅)
           1 (2 ^ 64) 30 1 "CREATOR" "KEY" demo_world _
           ([x06; x81; x01], [x06; x81; x01])
           (String.list_byte_of_string "CREATOR")).
  - reflexivity.
  - reflexivity.
  - unfold uint64. lia.
Defined.

Lemma createAmmApp_returns_positive_witness :
  0 < 77 ∧
  ∃ txid d,
    last (calls_since demo_world
            (createAmmApp demo_library (demo_client (λ _, answer_created (VInt 77)) ∅)
               1 2 30 1 "CREATOR" "KEY" demo_world).2) =
      Some (CPendingTransactionInfo txid (Ok d)) ∧
    (∃ c, get d "confirmed-round" (VInt 0) = VInt c ∧ 0 < c) ∧
    d !! "application-index" = Some (VInt 77).
Proof.
  apply (createAmmApp_returns_positive demo_library
           (demo_client (λ _, answer_created (VInt 77)) ∅)
           1 2 30 1 "CREATOR" "KEY" demo_world).
  vm_compute. reflexivity.
Defined.

Lemma getContracts_returns_witness :
  ∃ teal_a teal_c reply_a reply_c result_a result_c,
    compileTeal demo_library (approval_program demo_library) 6 = Ok teal_a ∧
    compileTeal demo_library (clear_program demo_library) 6 = Ok teal_c ∧
    calls_since demo_world
      (getContracts demo_library (demo_client (λ _, answer_pending) ∅) demo_world).2 =
      [CCompile teal_a (Ok reply_a); CCompile teal_c (Ok reply_c)] ∧
    reply_a !! "result" = Some (VStr result_a) ∧
    b64decode demo_library result_a = Ok [x06; x81; x01] ∧
    reply_c !! "result" = Some (VStr result_c) ∧
    b64decode demo_library result_c = Ok [x06; x81; x01] ∧
    heap (getContracts demo_library (demo_client (λ _, answer_pending) ∅)
            demo_world).2 = heap demo_world.
Proof.
  apply (getContracts_returns demo_library (demo_client (λ _, answer_pending) ∅)
           demo_world).
  reflexivity.
Defined.

Lemma setupAmmApp_no_global_state_witness :
  (setupAmmApp demo_library (demo_client answers_third demo_info_bare)
     77 1 2 "FUNDER" "KEY" demo_world).1 = Raise (KeyError "global-state").
Proof.
  apply (setupAmmApp_no_global_state demo_library
           (demo_client answers_third demo_info_bare)
           77 1 2 "FUNDER" "KEY" demo_world demo_info_bare
           {[ "creator" := VStr "CREATOR" ]}).
  - vm_compute. repeat constructor.
  - reflexivity.
  - reflexivity.
Defined.

Lemma setupAmmApp_unreadable_entry_witness :
  (setupAmmApp demo_library
     (demo_client answers_third (demo_info entries_unreadable_key))
     77 1 2 "FUNDER" "KEY" demo_world).1 = Raise (KeyError "key").
Proof.
  apply (setupAmmApp_unreadable_entry demo_library
           (demo_client answers_third (demo_info entries_unreadable_key))
           77 1 2 "FUNDER" "KEY" demo_world
           (demo_info entries_unreadable_key)
           {[ "creator" := VStr "CREATOR";
              "global-state" := VList entries_unreadable_key ]}
           entries_unreadable_key 1
           (VDict {[ "value" := teal_value 12 ]})).
  - vm_compute. repeat constructor.
  - reflexivity.
  - reflexivity.
  - reflexivity.
  - intros j e Hj He. destruct j as [|j]; [|lia].
    injection He as <-.
    exists (String.list_byte_of_string "token_a_key").
    split; [reflexivity | discriminate].
  - reflexivity.
Defined.

Lemma setupAmmApp_unreadable_value_witness :
  (setupAmmApp demo_library
     (demo_client answers_third (demo_info entries_unreadable_value))
     77 1 2 "FUNDER" "KEY" demo_world).1 = Raise (KeyError "uint").
Proof.
  apply (setupAmmApp_unreadable_value demo_library
           (demo_client answers_third (demo_info entries_unreadable_value))
           77 1 2 "FUNDER" "KEY" demo_world
           (demo_info entries_unreadable_value)
           {[ "creator" := VStr "CREATOR";
              "global-state" := VList entries_unreadable_value ]}
           entries_unreadable_value 1
           (VDict {[ "key" := VStr "cG9vbF90b2tlbl9rZXk=";
                     "value" := VDict {[ "bytes" := VStr ""; "type" := VInt 2 ]} ]})).
  - vm_compute. repeat constructor.
  - reflexivity.
  - reflexivity.
  - reflexivity.
  - intros j e Hj He. destruct j as [|j]; [|lia].
    injection He as <-.
    exists (String.list_byte_of_string "token_a_key").
    split; [reflexivity | discriminate].
  - reflexivity.
  - reflexivity.
Defined.

Lemma optInToPoolToken_submission_witness :
  (∃ params reply,
     CSendTransaction demo_optin_stx (Ok "TXID") =
       CSendTransaction
         {| transaction :=
              {| fields := AssetOptInTxn "ACCOUNT" 3; sp := params; group := None |};
            signed_with := "KEY" |}
         reply) ∧
  submissions
    (calls_since demo_world
       (optInToPoolToken demo_library (demo_client answers_third ∅)
          77 "ACCOUNT" "KEY" 3 demo_world).2) =
    [CSendTransaction demo_optin_stx (Ok "TXID")].
Proof.
  apply (optInToPoolToken_submission demo_library (demo_client answers_third ∅)
           77 "ACCOUNT" "KEY" 3 demo_world
           (CSendTransaction demo_optin_stx (Ok "TXID"))).
  - vm_compute. repeat constructor.
  - reflexivity.
Defined.

Lemma supply_returns_confirmed_witness :
  ∃ appAddr params gid d,
    get_application_address demo_library 77 = Ok appAddr ∧
    last (calls_since demo_world
            (supply demo_library (demo_client answers_third ∅)
               77 500 800 "SUPPLIER" "KEY" 1 2 3 demo_world).2) =
      Some (CPendingTransactionInfo
              (get_txid demo_library
                 {| fields := ApplicationCallTxn "SUPPLIER" 77 NoOpOC
                                [String.list_byte_of_string "supply"] [1; 2; 3];
                    sp := params; group := Some gid |})
              (Ok d)) ∧
    ∃ c, get d "confirmed-round" (VInt 0) = VInt c ∧ 0 < c.
Proof.
  apply (supply_returns_confirmed demo_library (demo_client answers_third ∅)
           77 500 800 "SUPPLIER" "KEY" 1 2 3 demo_world).
  vm_compute. reflexivity.
Defined.

Lemma setupAmmApp_polls_funding_witness :
  ∃ appAddr params gid,
    get_application_address demo_library 77 = Ok appAddr ∧
    "TXID" = get_txid demo_library
               {| fields := PaymentTxn "FUNDER" appAddr 403000;
                  sp := params; group := Some gid |}.
Proof.
  apply (setupAmmApp_polls_funding demo_library
           (demo_client answers_third (demo_info entries_with_pool_token))
           77 1 2 "FUNDER" "KEY" demo_world "TXID" (Ok answer_confirmed)).
  vm_compute. repeat constructor.
Defined.

(** * The operations do submit

    The properties above say what a submission looks like when there is
    one.  These say that there is one: when the library accepts the
    arguments and the node hands out its parameters, each operation makes
    exactly the submission described, whatever the node does afterwards. *)

Lemma only_calls_run {Node A} (P : Call → bool) (m : M Node A)
    (w w1 : World Node) (r : Res A) :
  only_calls P m →
  m w = (r, w1) →
  ∃ cs, w1 = {| node := node w1; calls := calls w ++ cs; heap := heap w |} ∧
        Forall (λ c, P c = true) cs.
Proof.
  intros Hm Hrun.
  pose proof (Hm w (λ _ w', ∃ cs,
    w' = {| node := node w'; calls := calls w ++ cs; heap := heap w |} ∧
    Forall (λ c, P c = true) cs)) as H.
  unfold wp in H. rewrite Hrun in H. apply H.
  intros r' nd cs Hcs. exists cs. split; [reflexivity | exact Hcs].
Qed.

Lemma submissions_single (pre post : list Call) (s : Call) :
  Forall (λ c, is_query c = true) pre →
  Forall (λ c, is_query c = true) post →
  is_submission s = true →
  submissions (pre ++ [s] ++ post) = [s].
Proof.
  intros Hpre Hpost Hs.
  rewrite !submissions_app, (submissions_queries pre Hpre),
    (submissions_queries post Hpost).
  unfold submissions. simpl. rewrite Hs. reflexivity.
Qed.

Section Submits.
Context (L : Library) {Node : Type} (client : AlgodClient Node).

(** C5 (as amended): for integers that fit in 8 bytes unsigned and a
    creator address that decodes, once the contracts are compiled, the node
    has given its suggested parameters and the library accepts the
    transaction and the key, [createAmmApp] builds and submits one
    transaction, the only submission of the run: the application-create
    transaction whose application arguments are exactly five, in this
    order: the decoded bytes of the creator address, then the 8-byte
    big-endian encodings of [tokenA], [tokenB], [feeBps] and
    [minIncrement]. *)
Theorem createAmmApp_submits_app_args tokenA tokenB feeBps minIncrement creator
    private_key (w w1 : World Node) approval clear address params n2 :
  getContracts L client w = (Ok (approval, clear), w1) →
  decode_address L creator = Ok address →
  uint64 tokenA → uint64 tokenB → uint64 feeBps → uint64 minIncrement →
  suggested_params client (node w1) = (Ok params, n2) →
  (∀ a b f m,
     is_big_endian 8 tokenA a → is_big_endian 8 tokenB b →
     is_big_endian 8 feeBps f → is_big_endian 8 minIncrement m →
     txn_check L (ApplicationCreateTxn creator NoOpOC approval clear
                    {| num_uints := 7; num_byte_slices := 1 |}
                    {| num_uints := 0; num_byte_slices := 0 |}
                    [address; a; b; f; m]) params = None) →
  key_check L private_key = None →
  ∃ a b f m reply,
    is_big_endian 8 tokenA a ∧
    is_big_endian 8 tokenB b ∧
    is_big_endian 8 feeBps f ∧
    is_big_endian 8 minIncrement m ∧
    submissions
      (calls_since w (createAmmApp L client tokenA tokenB feeBps minIncrement
                        creator private_key w).2) =
      [CSendTransaction
         {| transaction :=
              {| fields := ApplicationCreateTxn creator NoOpOC approval clear
                             {| num_uints := 7; num_byte_slices := 1 |}
                             {| num_uints := 0; num_byte_slices := 0 |}
                             [address; a; b; f; m];
                 sp := params; group := None |};
            signed_with := private_key |}
         reply].
Proof.
  intros Hget Haddr HA HB HF HM Hsp Hcheck Hkey.
  destruct (only_calls_run _ _ _ _ _ (only_calls_getContracts L client) Hget)
    as (cs1 & Hw1 & Hcs1).
  pose proof (to_bytes_in_range tokenA 8 HA) as Ha.
  pose proof (to_bytes_in_range tokenB 8 HB) as Hb.
  pose proof (to_bytes_in_range feeBps 8 HF) as Hf.
  pose proof (to_bytes_in_range minIncrement 8 HM) as Hm.
  exists (rev (le_bytes 8 tokenA)), (rev (le_bytes 8 tokenB)),
         (rev (le_bytes 8 feeBps)), (rev (le_bytes 8 minIncrement)).
  assert (is_big_endian 8 tokenA (rev (le_bytes 8 tokenA))) as HbeA
    by (apply to_bytes_big_endian, Ha).
  assert (is_big_endian 8 tokenB (rev (le_bytes 8 tokenB))) as HbeB
    by (apply to_bytes_big_endian, Hb).
  assert (is_big_endian 8 feeBps (rev (le_bytes 8 feeBps))) as HbeF
    by (apply to_bytes_big_endian, Hf).
  assert (is_big_endian 8 minIncrement (rev (le_bytes 8 minIncrement))) as HbeM
    by (apply to_bytes_big_endian, Hm).
  specialize (Hcheck _ _ _ _ HbeA HbeB HbeF HbeM).
  cut (∃ reply,
    submissions
      (calls_since w (createAmmApp L client tokenA tokenB feeBps minIncrement
                        creator private_key w).2) =
      [CSendTransaction
         {| transaction :=
              {| fields := ApplicationCreateTxn creator NoOpOC approval clear
                             {| num_uints := 7; num_byte_slices := 1 |}
                             {| num_uints := 0; num_byte_slices := 0 |}
                             [address; rev (le_bytes 8 tokenA);
                              rev (le_bytes 8 tokenB); rev (le_bytes 8 feeBps);
                              rev (le_bytes 8 minIncrement)];
                 sp := params; group := None |};
            signed_with := private_key |}
         reply]).
  { intros [reply Hsub]. exists reply. auto 6. }
  unfold createAmmApp. unfold bind at 1. rewrite Hget.
  match goal with
  | |- ∃ reply, submissions (calls_since w (?m w1).2) = @?S reply =>
      change (wp m w1 (λ _ w', ∃ reply, submissions (calls_since w w') = S reply))
  end.
  cbv beta iota. change ((approval, clear).1) with approval.
  change ((approval, clear).2) with clear.
  apply wp_bind, wp_lift. rewrite Haddr. cbv beta iota.
  apply wp_bind, wp_lift. rewrite Ha. cbv beta iota.
  apply wp_bind, wp_lift. rewrite Hb. cbv beta iota.
  apply wp_bind, wp_lift. rewrite Hf. cbv beta iota.
  apply wp_bind, wp_lift. rewrite Hm. cbv beta iota.
  apply wp_bind, wp_call. intros r n Hcall. rewrite Hsp in Hcall.
  injection Hcall as <- <-.
  apply wp_bind, wp_new_txn; [intros e He; rewrite Hcheck in He; discriminate|].
  intros _.
  apply wp_bind, wp_sign; [intros e He; rewrite Hkey in He; discriminate|].
  intros _.
  unfold wire. apply wp_bind, wp_bind, wp_load; simpl;
    [|rewrite list_lookup_middle by reflexivity; discriminate].
  intros t Ht. rewrite list_lookup_middle in Ht by reflexivity. injection Ht as <-.
  apply wp_ret, wp_bind, wp_call. intros sent n3 _.
  assert (∀ nd cs h, Forall (λ c, is_query c = true) cs →
    submissions
      (calls_since w
         {| node := nd;
            calls := ((calls w1 ++ [CSuggestedParams (Ok params)]) ++
                      [CSendTransaction
                         {| transaction :=
                              {| fields := ApplicationCreateTxn creator NoOpOC
                                             approval clear
                                             {| num_uints := 7; num_byte_slices := 1 |}
                                             {| num_uints := 0; num_byte_slices := 0 |}
                                             [address; rev (le_bytes 8 tokenA);
                                              rev (le_bytes 8 tokenB);
                                              rev (le_bytes 8 feeBps);
                                              rev (le_bytes 8 minIncrement)];
                                 sp := params; group := None |};
                            signed_with := private_key |} sent]) ++ cs;
            heap := h |}) =
    [CSendTransaction
       {| transaction :=
            {| fields := ApplicationCreateTxn creator NoOpOC approval clear
                           {| num_uints := 7; num_byte_slices := 1 |}
                           {| num_uints := 0; num_byte_slices := 0 |}
                           [address; rev (le_bytes 8 tokenA);
                            rev (le_bytes 8 tokenB); rev (le_bytes 8 feeBps);
                            rev (le_bytes 8 minIncrement)];
               sp := params; group := None |};
          signed_with := private_key |} sent]) as Hleaf.
  { intros nd cs h Hcs. rewrite Hw1. simpl.
    rewrite <- !app_assoc, calls_since_world, (app_assoc cs1).
    apply submissions_single; [all_queries | exact Hcs | reflexivity]. }
  destruct sent as [txid0|e].
  - apply create_tail_queries. intros r nd cs Hcs.
    eexists. apply Hleaf, Hcs.
  - eexists.
    match goal with
    | |- context [calls_since w {| node := ?nd; calls := _; heap := ?h |}] =>
        pose proof (Hleaf nd [] h (Forall_nil_2 _)) as H
    end.
    rewrite app_nil_r in H. exact H.
Qed.

(** Leaves of a run that the hypotheses rule out. *)
Ltac ruled_out H :=
  let e := fresh "e" in
  let He := fresh "He" in
  intros e He; simpl in He; rewrite H in He; discriminate He.

(** C6: when the library gives the application address, accepts the two
    transactions and the key and computes a group identifier, and the node
    hands out its suggested parameters, every invocation of [setupAmmApp]
    submits one atomic group, in a single [send_transactions] that is the
    only submission of the run: exactly two transactions, the payment of
    403,000 from the funder to the application address followed by the
    "setup" application call, both carrying the same group identifier;
    403,000 is the minimum-balance requirement 100,000 + 3 * 100,000 plus
    3 * 1,000. *)
Theorem setupAmmApp_submits_group appID tokenA tokenB funder private_key
    (w : World Node) appAddr params n1 gid :
  get_application_address L appID = Ok appAddr →
  suggested_params client (node w) = (Ok params, n1) →
  txn_check L (PaymentTxn funder appAddr 403000) params = None →
  txn_check L (ApplicationCallTxn funder appID NoOpOC
                 [String.list_byte_of_string "setup"] [tokenA; tokenB]) params = None →
  calculate_group_id L
    [ {| fields := PaymentTxn funder appAddr 403000; sp := params; group := None |};
      {| fields := ApplicationCallTxn funder appID NoOpOC
                     [String.list_byte_of_string "setup"] [tokenA; tokenB];
         sp := params; group := None |} ] = Ok gid →
  key_check L private_key = None →
  (∃ reply,
     submissions
       (calls_since w (setupAmmApp L client appID tokenA tokenB
                         funder private_key w).2) =
       [CSendTransactions
          [ {| transaction :=
                 {| fields := PaymentTxn funder appAddr 403000;
                    sp := params; group := Some gid |};
               signed_with := private_key |};
            {| transaction :=
                 {| fields := ApplicationCallTxn funder appID NoOpOC
                                [String.list_byte_of_string "setup"] [tokenA; tokenB];
                    sp := params; group := Some gid |};
               signed_with := private_key |} ]
          reply]) ∧
  MIN_BALANCE_REQUIREMENT = 100000 + 3 * 100000 ∧
  403000 = MIN_BALANCE_REQUIREMENT + 3 * 1000.
Proof.
  intros Happ Hsp Hfund Hsetup Hgid Hkey.
  split; [|split; reflexivity].
  match goal with
  | |- ∃ reply, submissions (calls_since w (?m w).2) = @?S reply =>
      change (wp m w (λ _ w', ∃ reply, submissions (calls_since w w') = S reply))
  end.
  unfold setupAmmApp.
  change (MIN_BALANCE_REQUIREMENT + 1000 * 3) with 403000.
  apply wp_bind, wp_lift. rewrite Happ. cbv beta iota.
  apply wp_bind, wp_call. intros r n Hcall. rewrite Hsp in Hcall.
  injection Hcall as <- <-.
  apply wp_bind, wp_new_txn; [ruled_out Hfund|]. intros _.
  apply wp_bind, wp_new_txn; [ruled_out Hsetup|]. intros _.
  simpl. rewrite length_app, Nat.add_1_r, <- app_assoc. simpl.
  apply wp_bind; eapply (wp_assign_group_id_fresh L [_; _] (heap w));
    [reflexivity | ruled_out Hgid | ].
  intros gid0 Hgid0. rewrite Hgid in Hgid0. injection Hgid0 as <-.
  apply wp_bind, wp_sign; [ruled_out Hkey|]. intros _.
  apply wp_bind, wp_sign; [ruled_out Hkey|]. intros _.
  apply wp_bind.
  eapply wp_eq; [eapply (mapM_wire_fresh private_key [_; _] (heap w)); reflexivity|].
  apply wp_bind, wp_call. intros sent n2 _.
  assert (∀ nd cs h, Forall (λ c, is_query c = true) cs →
    submissions
      (calls_since w
         {| node := nd;
            calls := ((calls w ++ [CSuggestedParams (Ok params)]) ++
                      [CSendTransactions
                         (map (λ t, {| transaction := t; signed_with := private_key |})
                            (map (with_group gid)
                               [ {| fields := PaymentTxn funder appAddr 403000;
                                    sp := params; group := None |};
                                 {| fields := ApplicationCallTxn funder appID NoOpOC
                                                [String.list_byte_of_string "setup"]
                                                [tokenA; tokenB];
                                    sp := params; group := None |} ]))
                         sent]) ++ cs;
            heap := h |}) =
    [CSendTransactions
       [ {| transaction :=
              {| fields := PaymentTxn funder appAddr 403000;
                 sp := params; group := Some gid |};
            signed_with := private_key |};
         {| transaction :=
              {| fields := ApplicationCallTxn funder appID NoOpOC
                             [String.list_byte_of_string "setup"] [tokenA; tokenB];
                 sp := params; group := Some gid |};
            signed_with := private_key |} ]
       sent]) as Hleaf.
  { intros nd cs h Hcs. rewrite <- !app_assoc, calls_since_world.
    apply (submissions_single [_]); [all_queries | exact Hcs | reflexivity]. }
  destruct sent as [txid0|e].
  - apply only_calls_setup_tail. intros r nd cs Hcs.
    eexists. apply Hleaf, Hcs.
  - eexists.
    match goal with
    | |- context [calls_since w {| node := ?nd; calls := _; heap := ?h |}] =>
        pose proof (Hleaf nd [] h (Forall_nil_2 _)) as H
    end.
    rewrite app_nil_r in H. exact H.
Qed.

(** C7: when the library gives the application address, accepts the four
    transactions and the key and computes a group identifier, and the node
    hands out its suggested parameters, every invocation of [supply]
    submits one atomic group, all four transactions together in a single
    [send_transactions] that is the only submission of the run, in this
    fixed order: the fee payment, the transfer of token A, the transfer of
    token B, and the "supply" application call that names [tokenA],
    [tokenB] and [poolToken]; all four carry the same group identifier. *)
Theorem supply_submits_group appID qA qB supplier private_key tokenA tokenB poolToken
    (w : World Node) appAddr params n1 gid :
  get_application_address L appID = Ok appAddr →
  suggested_params client (node w) = (Ok params, n1) →
  txn_check L (PaymentTxn supplier appAddr 2000) params = None →
  txn_check L (AssetTransferTxn supplier appAddr qA tokenA) params = None →
  txn_check L (AssetTransferTxn supplier appAddr qB tokenB) params = None →
  txn_check L (ApplicationCallTxn supplier appID NoOpOC
                 [String.list_byte_of_string "supply"]
                 [tokenA; tokenB; poolToken]) params = None →
  calculate_group_id L
    [ {| fields := PaymentTxn supplier appAddr 2000; sp := params; group := None |};
      {| fields := AssetTransferTxn supplier appAddr qA tokenA;
         sp := params; group := None |};
      {| fields := AssetTransferTxn supplier appAddr qB tokenB;
         sp := params; group := None |};
      {| fields := ApplicationCallTxn supplier appID NoOpOC
                     [String.list_byte_of_string "supply"]
                     [tokenA; tokenB; poolToken];
         sp := params; group := None |} ] = Ok gid →
  key_check L private_key = None →
  ∃ reply,
    submissions
      (calls_since w (supply L client appID qA qB supplier private_key
                        tokenA tokenB poolToken w).2) =
      [CSendTransactions
         [ {| transaction :=
                {| fields := PaymentTxn supplier appAddr 2000;
                   sp := params; group := Some gid |};
              signed_with := private_key |};
           {| transaction :=
                {| fields := AssetTransferTxn supplier appAddr qA tokenA;
                   sp := params; group := Some gid |};
              signed_with := private_key |};
           {| transaction :=
                {| fields := AssetTransferTxn supplier appAddr qB tokenB;
                   sp := params; group := Some gid |};
              signed_with := private_key |};
           {| transaction :=
                {| fields := ApplicationCallTxn supplier appID NoOpOC
                               [String.list_byte_of_string "supply"]
                               [tokenA; tokenB; poolToken];
                   sp := params; group := Some gid |};
              signed_with := private_key |} ]
         reply].
Proof.
  intros Happ Hsp Hfee HtA HtB Hcall Hgid Hkey.
  match goal with
  | |- ∃ reply, submissions (calls_since w (?m w).2) = @?S reply =>
      change (wp m w (λ _ w', ∃ reply, submissions (calls_since w w') = S reply))
  end.
  unfold supply.
  apply wp_bind, wp_lift. rewrite Happ. cbv beta iota.
  apply wp_bind, wp_call. intros r n Hcall'. rewrite Hsp in Hcall'.
  injection Hcall' as <- <-.
  apply wp_bind, wp_new_txn; [ruled_out Hfee|]. intros _.
  apply wp_bind, wp_new_txn; [ruled_out HtA|]. intros _.
  apply wp_bind, wp_new_txn; [ruled_out HtB|]. intros _.
  apply wp_bind, wp_new_txn; [ruled_out Hcall|]. intros _.
  simpl. rewrite !length_app, !Nat.add_1_r, <- !app_assoc. simpl.
  apply wp_bind; eapply (wp_assign_group_id_fresh L [_; _; _; _] (heap w));
    [reflexivity | ruled_out Hgid | ].
  intros gid0 Hgid0. rewrite Hgid in Hgid0. injection Hgid0 as <-.
  do 4 (apply wp_bind, wp_sign; [ruled_out Hkey|]; intros _).
  apply wp_bind.
  eapply wp_eq;
    [eapply (mapM_wire_fresh private_key [_; _; _; _] (heap w)); reflexivity|].
  apply wp_bind, wp_call. intros sent n2 _.
  assert (∀ nd cs h, Forall (λ c, is_query c = true) cs →
    submissions
      (calls_since w
         {| node := nd;
            calls := ((calls w ++ [CSuggestedParams (Ok params)]) ++
                      [CSendTransactions
                         (map (λ t, {| transaction := t; signed_with := private_key |})
                            (map (with_group gid)
                               [ {| fields := PaymentTxn supplier appAddr 2000;
                                    sp := params; group := None |};
                                 {| fields := AssetTransferTxn supplier appAddr qA tokenA;
                                    sp := params; group := None |};
                                 {| fields := AssetTransferTxn supplier appAddr qB tokenB;
                                    sp := params; group := None |};
                                 {| fields := ApplicationCallTxn supplier appID NoOpOC
                                                [String.list_byte_of_string "supply"]
                                                [tokenA; tokenB; poolToken];
                                    sp := params; group := None |} ]))
                         sent]) ++ cs;
            heap := h |}) =
    [CSendTransactions
       [ {| transaction :=
              {| fields := PaymentTxn supplier appAddr 2000;
                 sp := params; group := Some gid |};
            signed_with := private_key |};
         {| transaction :=
              {| fields := AssetTransferTxn supplier appAddr qA tokenA;
                 sp := params; group := Some gid |};
            signed_with := private_key |};
         {| transaction :=
              {| fields := AssetTransferTxn supplier appAddr qB tokenB;
                 sp := params; group := Some gid |};
            signed_with := private_key |};
         {| transaction :=
              {| fields := ApplicationCallTxn supplier appID NoOpOC
                             [String.list_byte_of_string "supply"]
                             [tokenA; tokenB; poolToken];
                 sp := params; group := Some gid |};
            signed_with := private_key |} ]
       sent]) as Hleaf.
  { intros nd cs h Hcs. rewrite <- !app_assoc, calls_since_world.
    apply (submissions_single [_]); [all_queries | exact Hcs | reflexivity]. }
  destruct sent as [txid0|e].
  - apply only_calls_wait_tail. intros r nd cs Hcs.
    eexists. apply Hleaf, Hcs.
  - eexists.
    match goal with
    | |- context [calls_since w {| node := ?nd; calls := _; heap := ?h |}] =>
        pose proof (Hleaf nd [] h (Forall_nil_2 _)) as H
    end.
    rewrite app_nil_r in H. exact H.
Qed.

End Submits.

(** ** Runs that submit, and one that does not *)

Lemma createAmmApp_submits_app_args_witness :
  ∃ a b f m reply,
    is_big_endian 8 1 a ∧
    is_big_endian 8 2 b ∧
    is_big_endian 8 30 f ∧
    is_big_endian 8 1 m ∧
    submissions
      (calls_since demo_world
         (createAmmApp demo_library (demo_client (λ _, answer_created (VInt 77)) ∅)
            1 2 30 1 "CREATOR" "KEY" demo_world).2) =
      [CSendTransaction
         {| transaction :=
              {| fields := ApplicationCreateTxn "CREATOR" NoOpOC
                             [x06; x81; x01] [x06; x81; x01]
                             {| num_uints := 7; num_byte_slices := 1 |}
                             {| num_uints := 0; num_byte_slices := 0 |}
                             [String.list_byte_of_string "CREATOR"; a; b; f; m];
                 sp := demo_params; group := None |};
            signed_with := "KEY" |}
         reply].
Proof.
  apply (createAmmApp_submits_app_args demo_library
           (demo_client (λ _, answer_created (VInt 77)) ∅)
           1 2 30 1 "CREATOR" "KEY" demo_world
           (getContracts demo_library
              (demo_client (λ _, answer_created (VInt 77)) ∅) demo_world).2
           [x06; x81; x01] [x06; x81; x01]
           (String.list_byte_of_string "CREATOR") demo_params 0%nat).
  - reflexivity.
  - reflexivity.
  - unfold uint64. lia.
  - unfold uint64. lia.
  - unfold uint64. lia.
  - unfold uint64. lia.
  - reflexivity.
  - reflexivity.
  - reflexivity.
Defined.

Lemma setupAmmApp_submits_group_witness :
  (∃ reply,
     submissions
       (calls_since demo_world
          (setupAmmApp demo_library
             (demo_client answers_third (demo_info entries_with_pool_token))
             77 1 2 "FUNDER" "KEY" demo_world).2) =
       [CSendTransactions
          [ {| transaction :=
                 {| fields := PaymentTxn "FUNDER" "APP77" 403000;
                    sp := demo_params; group := Some [x2a] |};
               signed_with := "KEY" |};
            {| transaction :=
                 {| fields := ApplicationCallTxn "FUNDER" 77 NoOpOC
                                [String.list_byte_of_string "setup"] [1; 2];
                    sp := demo_params; group := Some [x2a] |};
               signed_with := "KEY" |} ]
          reply]) ∧
  MIN_BALANCE_REQUIREMENT = 100000 + 3 * 100000 ∧
  403000 = MIN_BALANCE_REQUIREMENT + 3 * 1000.
Proof.
  apply (setupAmmApp_submits_group demo_library
           (demo_client answers_third (demo_info entries_with_pool_token))
           77 1 2 "FUNDER" "KEY" demo_world "APP77" demo_params 0%nat [x2a]);
    reflexivity.
Defined.

Lemma supply_submits_group_witness :
  ∃ reply,
    submissions
      (calls_since demo_world
         (supply demo_library (demo_client answers_third ∅)
            77 500 800 "SUPPLIER" "KEY" 1 2 3 demo_world).2) =
      [CSendTransactions
         [ {| transaction :=
                {| fields := PaymentTxn "SUPPLIER" "APP77" 2000;
                   sp := demo_params; group := Some [x2a] |};
              signed_with := "KEY" |};
           {| transaction :=
                {| fields := AssetTransferTxn "SUPPLIER" "APP77" 500 1;
                   sp := demo_params; group := Some [x2a] |};
              signed_with := "KEY" |};
           {| transaction :=
                {| fields := AssetTransferTxn "SUPPLIER" "APP77" 800 2;
                   sp := demo_params; group := Some [x2a] |};
              signed_with := "KEY" |};
           {| transaction :=
                {| fields := ApplicationCallTxn "SUPPLIER" 77 NoOpOC
                               [String.list_byte_of_string "supply"] [1; 2; 3];
                   sp := demo_params; group := Some [x2a] |};
              signed_with := "KEY" |} ]
         reply].
Proof.
  apply (supply_submits_group demo_library (demo_client answers_third ∅)
           77 500 800 "SUPPLIER" "KEY" 1 2 3 demo_world
           "APP77" demo_params 0%nat [x2a]);
    reflexivity.
Defined.

(** C5 as it is stated, for every integer, fails: [2^64] has no 8-byte
    encoding, [tokenB.to_bytes(8, "big")] raises [OverflowError], and the
    run builds and submits no transaction at all, although the contracts
    compile and the address decodes. *)
Lemma createAmmApp_app_args_counterexample :
  (createAmmApp demo_library (demo_client (λ _, answer_created (VInt 77)) ∅)
     1 (2 ^ 64) 30 1 "CREATOR" "KEY" demo_world).1 = Raise OverflowError ∧
  ¬ ∃ stx reply,
      CSendTransaction stx reply ∈
        calls_since demo_world
          (createAmmApp demo_library (demo_client (λ _, answer_created (VInt 77)) ∅)
             1 (2 ^ 64) 30 1 "CREATOR" "KEY" demo_world).2.
Proof.
  split.
  - vm_compute. reflexivity.
  - intros (stx & reply & Hin).
    refine (no_submission _ _ _ Hin eq_refl).
    vm_compute. repeat constructor.
Qed.
